(** * gh-docs-index: the Lunr index builder

    A shallow embedding of [scripts/build_lunr_index.mjs], the script
    that reads [out/github-docs.json], feeds every document to a Lunr
    builder and writes the serialised index to
    [out/github-lunr-index.json].

    Layout:
    - [JS]    : the fragment of JavaScript the script runs on (JSON
                values, truthiness, [||], property reads, [ToString],
                [Array.prototype.join], exceptions);
    - [Lunr]  : the part of the imported [lunr] package the script
                drives (tokenizer, default pipeline, [Builder], [Index],
                single-term search);
    - [BuildLunrIndex] : the script itself, over a world made of a file
                system and the standard output.

    Modelling boundaries.  Strings are sequences of 8-bit code units
    (the Latin-1 range of JavaScript strings).  A number is carried by
    its canonical decimal rendering, since the script does no arithmetic
    on document fields.  [JSON.parse] and the final [JSON.stringify] of
    the index are taken as parameters of the script.  Floating-point
    weights of the index are kept symbolically (the integers they are
    computed from). *)

From Stdlib Require Import String Ascii List Bool Arith Lia.
From stdpp Require Import base option list strings gmap pretty.

Set Warnings "-register-all".
Open Scope string_scope.

(* ================================================================== *)
(** ** JavaScript values and exceptions *)
(* ================================================================== *)

Module JS.

(** What an uncaught exception can be in this script. *)
Inductive error :=
| ENOENT        (* fs.readFileSync on a missing file *)
| EACCES        (* fs.writeFileSync on a path that cannot be written *)
| SyntaxError   (* JSON.parse *)
| TypeError     (* property read on null, call of a non-function, ... *)
| RangeError.   (* lunr.Builder.field on a name containing '/' *)

(** A computation either completes with a value or throws. *)
Inductive result (A : Type) :=
| Ok (a : A)
| Throw (e : error).
Arguments Ok {A} a.
Arguments Throw {A} e.

#[global] Instance result_ret : MRet result := λ A a, Ok a.
#[global] Instance result_bind : MBind result := λ A B f m,
  match m with Ok a => f a | Throw e => Throw e end.

Definition is_Ok {A} (r : result A) : bool :=
  match r with Ok _ => true | Throw _ => false end.

(** Left-to-right traversal that stops at the first exception. *)
Definition mapM {A B} (f : A → result B) : list A → result (list B) :=
  fix go (l : list A) : result (list B) :=
    match l with
    | [] => Ok []
    | x :: r => y ← f x; ys ← go r; Ok (y :: ys)
    end.

(** Left fold with an exception-raising step: a [for] loop over [l]. *)
Definition foldM {A S} (f : S → A → result S) : list A → S → result S :=
  fix go (l : list A) (s : S) : result S :=
    match l with
    | [] => Ok s
    | x :: r => s' ← f s x; go r s'
    end.

(** A value as [JSON.parse] can return it, plus [undefined].  An object
    is its own properties in insertion order, one entry per key. *)
Inductive value :=
| VUndefined
| VNull
| VBool (b : bool)
| VNum (repr : string)
| VStr (s : string)
| VArr (elems : list value)
| VObj (props : list (string * value)).

(** Own-property lookup. *)
Fixpoint own {A} (props : list (string * A)) (k : string) : option A :=
  match props with
  | [] => None
  | (k', v) :: r => if String.eqb k' k then Some v else own r k
  end.

(** ToBoolean. *)
Definition truthy (v : value) : bool :=
  match v with
  | VUndefined | VNull => false
  | VBool b => b
  | VNum r => negb (String.eqb r "0" || String.eqb r "NaN")
  | VStr s => negb (String.eqb s "")
  | VArr _ | VObj _ => true
  end.

(** [a || b] on already evaluated operands. *)
Definition or_else (a b : value) : value := if truthy a then a else b.

(** [v.k] for a property name [k] that no prototype defines and that is
    neither an index nor [length] (the script reads [id], [title],
    [excerpt] and [labels]). *)
Definition get (v : value) (k : string) : result value :=
  match v with
  | VUndefined | VNull => Throw TypeError
  | VObj props => Ok (default VUndefined (own props k))
  | _ => Ok VUndefined
  end.

(** ToString.  An array joins its elements with a comma, [null] and
    [undefined] elements rendering as the empty string; a plain object
    whose own [toString] property shadows the inherited method cannot be
    converted, since no JSON value is callable. *)
Fixpoint toString (v : value) : result string :=
  match v with
  | VUndefined => Ok "undefined"
  | VNull => Ok "null"
  | VBool true => Ok "true"
  | VBool false => Ok "false"
  | VNum r => Ok r
  | VStr s => Ok s
  | VArr l =>
      parts ← mapM (λ x, match x with
                          | VUndefined | VNull => Ok ""
                          | _ => toString x
                          end) l;
      Ok (String.concat "," parts)
  | VObj props =>
      match own props "toString" with
      | Some _ => Throw TypeError
      | None => Ok "[object Object]"
      end
  end.

(** The element conversion of [Array.prototype.join]. *)
Definition join_elem (x : value) : result string :=
  match x with
  | VUndefined | VNull => Ok ""
  | _ => toString x
  end.

(** [Array.prototype.join] on the elements of an array. *)
Definition Array_join (l : list value) (sep : string) : result string :=
  parts ← mapM join_elem l; Ok (String.concat sep parts).

(** [v.join(sep)]: only arrays have the method; on anything else the
    callee is [undefined] (strings, numbers, booleans, plain objects) or
    a non-callable JSON value, and the call throws. *)
Definition join (v : value) (sep : string) : result string :=
  match v with
  | VArr l => Array_join l sep
  | _ => Throw TypeError
  end.

(** The values a [for ... of] loop visits: the elements of an array, the
    characters of a string; nothing else [JSON.parse] returns is
    iterable. *)
Definition iterate (v : value) : result (list value) :=
  match v with
  | VArr l => Ok l
  | VStr s => Ok (map (λ c, VStr (String c "")) (list_ascii_of_string s))
  | _ => Throw TypeError
  end.

(** [v.length] of an iterable. *)
Definition length_of (v : value) : nat :=
  match v with
  | VArr l => length l
  | VStr s => String.length s
  | _ => 0
  end.

(** *** Characters *)

Definition code (c : ascii) : nat := nat_of_ascii c.

Definition in_range (lo hi : nat) (c : ascii) : bool :=
  ((lo <=? code c) && (code c <=? hi))%nat.

(** [\w]: [[A-Za-z0-9_]]. *)
Definition is_word (c : ascii) : bool :=
  in_range 65 90 c || in_range 97 122 c || in_range 48 57 c || (code c =? 95)%nat.

(** [\s] within Latin-1: TAB, LF, VT, FF, CR, SPACE, NBSP. *)
Definition is_white (c : ascii) : bool :=
  in_range 9 13 c || (code c =? 32)%nat || (code c =? 160)%nat.

(** A line terminator, which [.] does not match. *)
Definition is_newline (c : ascii) : bool :=
  (code c =? 10)%nat || (code c =? 13)%nat.

(** [String.prototype.toLowerCase] within Latin-1: [A-Z] and the
    accented capitals U+00C0..U+00DE except the multiplication sign. *)
Definition lower_char (c : ascii) : ascii :=
  if in_range 65 90 c || (in_range 192 222 c && negb (code c =? 215)%nat)
  then ascii_of_nat (code c + 32) else c.

Fixpoint toLowerCase (s : string) : string :=
  match s with
  | EmptyString => EmptyString
  | String c r => String (lower_char c) (toLowerCase r)
  end.

End JS.

(* ================================================================== *)
(** ** The [lunr] package, as far as the script drives it *)
(* ================================================================== *)

(** Modelled from the spec: the indexing library.  The script imports
    [lunr] from the package registry; its code is not part of the
    repository.  The spec describes it as a tokenizer followed by the
    default English pipeline (no custom stop words, no custom boosts), a
    Porter stemmer, and an inverted index from stemmed tokens to
    postings that reference document ids, with per-field weights.  The
    definitions below fill in that description with the structure of the
    2.3 series of the package ([tokenizer.js], [trimmer.js],
    [stop_word_filter.js], [stemmer.js], [pipeline.js], [builder.js],
    [index.js]), keeping its names. *)
Module Lunr.
Import JS.

(** *** Regular expressions of the stemmer

    A small matcher by derivatives, enough for the anchored patterns the
    stemmer tests words against. *)
Inductive re :=
| Void
| Eps
| Cls (p : ascii → bool)
| Seq (r1 r2 : re)
| Alt (r1 r2 : re)
| Star (r : re).

Fixpoint nullable (r : re) : bool :=
  match r with
  | Void => false
  | Eps => true
  | Cls _ => false
  | Seq a b => nullable a && nullable b
  | Alt a b => nullable a || nullable b
  | Star _ => true
  end.

Fixpoint deriv (c : ascii) (r : re) : re :=
  match r with
  | Void | Eps => Void
  | Cls p => if p c then Eps else Void
  | Seq a b =>
      if nullable a then Alt (Seq (deriv c a) b) (deriv c b)
      else Seq (deriv c a) b
  | Alt a b => Alt (deriv c a) (deriv c b)
  | Star a => Seq (deriv c a) (Star a)
  end.

(** [^r$]. *)
Fixpoint matches (r : re) (s : string) : bool :=
  match s with
  | EmptyString => nullable r
  | String c s' => matches (deriv c r) s'
  end.

Definition Opt (r : re) : re := Alt r Eps.
Definition Any : re := Cls (λ _, true).

(** [^r], with nothing required of what follows. *)
Definition matches_prefix (r : re) (s : string) : bool :=
  matches (Seq r (Star Any)) s.

(** A character class given by its members, and its complement. *)
Definition one_of (set : string) (c : ascii) : bool :=
  existsb (Ascii.eqb c) (list_ascii_of_string set).
Definition none_of (set : string) (c : ascii) : bool := negb (one_of set c).

(** [^(.+?)REST$] where [REST] is recognised by [p]: the lazy group
    takes the shortest non-empty prefix without line terminators whose
    remainder satisfies [p].  The result is the group and the remainder. *)
Fixpoint lazy_split_from (p : string → bool) (stem rest : string)
  : option (string * string) :=
  if p rest then Some (stem, rest)
  else match rest with
       | EmptyString => None
       | String c r =>
           if is_newline c then None
           else lazy_split_from p (stem ++ String c "") r
       end.

Definition lazy_split (p : string → bool) (w : string) : option (string * string) :=
  match w with
  | EmptyString => None
  | String c r => if is_newline c then None else lazy_split_from p (String c "") r
  end.

(** The remainder is one of the listed alternatives. *)
Definition among (alts : list string) (rest : string) : bool :=
  existsb (String.eqb rest) alts.

(** [/SUFFIX$/.test(w)]. *)
Definition ends_with (suffix w : string) : bool :=
  let n := String.length w in
  let k := String.length suffix in
  (k <=? n)%nat && String.eqb (substring (n - k) k w) suffix.

(** [w.replace(/.$/, "")]: drops the last character unless it is a line
    terminator. *)
Definition drop_last (w : string) : string :=
  let n := String.length w in
  match String.get (n - 1) w with
  | Some c => if is_newline c then w else substring 0 (n - 1) w
  | None => w
  end.

(** *** lunr.stemmer *)

Definition c : re := Cls (none_of "aeiou").
Definition v : re := Cls (one_of "aeiouy").
Definition C : re := Seq c (Star (Cls (none_of "aeiouy"))).
Definition V : re := Seq v (Star (Cls (one_of "aeiou"))).

Definition re_mgr0 (s : string) : bool :=
  matches_prefix (Seq (Opt C) (Seq V C)) s.
Definition re_meq1 (s : string) : bool :=
  matches (Seq (Opt C) (Seq V (Seq C (Opt V)))) s.
Definition re_mgr1 (s : string) : bool :=
  matches_prefix (Seq (Opt C) (Seq V (Seq C (Seq V C)))) s.
Definition re_s_v (s : string) : bool :=
  matches_prefix (Seq (Opt C) v) s.

Definition step2list : list (string * string) :=
  [ ("ational", "ate"); ("tional", "tion"); ("enci", "ence"); ("anci", "ance");
    ("izer", "ize"); ("bli", "ble"); ("alli", "al"); ("entli", "ent");
    ("eli", "e"); ("ousli", "ous"); ("ization", "ize"); ("ation", "ate");
    ("ator", "ate"); ("alism", "al"); ("iveness", "ive"); ("fulness", "ful");
    ("ousness", "ous"); ("aliti", "al"); ("iviti", "ive"); ("biliti", "ble");
    ("logi", "log") ].

Definition step3list : list (string * string) :=
  [ ("icate", "ic"); ("ative", ""); ("alize", "al"); ("iciti", "ic");
    ("ical", "ic"); ("ful", ""); ("ness", "") ].

(** [/^(.+?)(ss|i)es$/] *)
Definition re_1a : string → option (string * string) :=
  lazy_split (among ["sses"; "ies"]).
(** [/^(.+?)([^s])s$/] *)
Definition re2_1a : string → option (string * string) :=
  lazy_split (λ rest, match rest with
                      | String x (String "s" EmptyString) => negb (Ascii.eqb x "s")
                      | _ => false
                      end).
(** [/^(.+?)eed$/] *)
Definition re_1b : string → option (string * string) := lazy_split (among ["eed"]).
(** [/^(.+?)(ed|ing)$/] *)
Definition re2_1b : string → option (string * string) := lazy_split (among ["ed"; "ing"]).
(** [/(at|bl|iz)$/] *)
Definition re2_1b_2 (w : string) : bool :=
  ends_with "at" w || ends_with "bl" w || ends_with "iz" w.
(** [/([^aeiouylsz])\1$/] *)
Definition re3_1b_2 (w : string) : bool :=
  let n := String.length w in
  match String.get (n - 2) w, String.get (n - 1) w with
  | Some x, Some y => (2 <=? n)%nat && Ascii.eqb x y && none_of "aeiouylsz" x
  | _, _ => false
  end.
(** [^C v [^aeiouwxy]$], used as [re4_1b_2] and as [re3_5]. *)
Definition re4_1b_2 (w : string) : bool :=
  matches (Seq C (Seq v (Cls (none_of "aeiouwxy")))) w.
Definition re3_5 : string → bool := re4_1b_2.
(** [/^(.+?[^aeiou])y$/]; the group keeps the consonant. *)
Definition re_1c (w : string) : option string :=
  match lazy_split (λ rest, match rest with
                            | String x (String "y" EmptyString) => none_of "aeiou" x
                            | _ => false
                            end) w with
  | Some (stem, String x _) => Some (stem ++ String x "")
  | _ => None
  end.
(** [re_2], [re_3], [re_4]: [/^(.+?)(SUFFIX|...)$/]. *)
Definition re_2 : string → option (string * string) :=
  lazy_split (among (map fst step2list)).
Definition re_3 : string → option (string * string) :=
  lazy_split (among (map fst step3list)).
Definition re_4 : string → option (string * string) :=
  lazy_split (among ["al"; "ance"; "ence"; "er"; "ic"; "able"; "ible"; "ant";
                     "ement"; "ment"; "ent"; "ou"; "ism"; "ate"; "iti"; "ous";
                     "ive"; "ize"]).
(** [/^(.+?)(s|t)(ion)$/] *)
Definition re2_4 : string → option (string * string) :=
  lazy_split (among ["sion"; "tion"]).
(** [/^(.+?)e$/] *)
Definition re_5 : string → option (string * string) := lazy_split (among ["e"]).

(** The steps of the stemmer, each on the word the previous one left. *)
Definition step1a (w : string) : string :=
  match re_1a w with
  | Some (stem, rest) => stem ++ substring 0 (String.length rest - 2) rest
  | None =>
      match re2_1a w with
      | Some (stem, rest) => stem ++ substring 0 1 rest
      | None => w
      end
  end.

Definition step1b (w : string) : string :=
  match re_1b w with
  | Some (stem, _) => if re_mgr0 stem then drop_last w else w
  | None =>
      match re2_1b w with
      | Some (stem, _) =>
          if re_s_v stem then
            if re2_1b_2 stem then stem ++ "e"
            else if re3_1b_2 stem then drop_last stem
            else if re4_1b_2 stem then stem ++ "e"
            else stem
          else w
      | None => w
      end
  end.

Definition step1c (w : string) : string :=
  match re_1c w with
  | Some stem => stem ++ "i"
  | None => w
  end.

Definition step2 (w : string) : string :=
  match re_2 w with
  | Some (stem, suffix) =>
      if re_mgr0 stem then stem ++ default "" (own step2list suffix) else w
  | None => w
  end.

Definition step3 (w : string) : string :=
  match re_3 w with
  | Some (stem, suffix) =>
      if re_mgr0 stem then stem ++ default "" (own step3list suffix) else w
  | None => w
  end.

Definition step4 (w : string) : string :=
  match re_4 w with
  | Some (stem, _) => if re_mgr1 stem then stem else w
  | None =>
      match re2_4 w with
      | Some (stem, rest) =>
          let stem := stem ++ substring 0 1 rest in
          if re_mgr1 stem then stem else w
      | None => w
      end
  end.

Definition step5 (w : string) : string :=
  let w :=
    match re_5 w with
    | Some (stem, _) =>
        if re_mgr1 stem || (re_meq1 stem && negb (re3_5 stem)) then stem else w
    | None => w
    end in
  if ends_with "ll" w && re_mgr1 w then drop_last w else w.

(** [w.substr(1)]. *)
Definition tail (w : string) : string :=
  match w with EmptyString => EmptyString | String _ r => r end.

(** Modelled from the spec: the Porter stemmer the spec names, in the
    package's regular-expression form.  Words shorter than three
    characters are left alone; an initial [y] is protected from being
    read as a vowel. *)
Definition porterStemmer (w : string) : string :=
  if (String.length w <? 3)%nat then w
  else
    let firstch := substring 0 1 w in
    let w := if String.eqb firstch "y" then "Y" ++ tail w else w in
    let w := step1a w in
    let w := step1b w in
    let w := step1c w in
    let w := step2 w in
    let w := step3 w in
    let w := step4 w in
    let w := step5 w in
    if String.eqb firstch "y" then "y" ++ tail w else w.

(** [lunr.stemmer]: the token with its text stemmed. *)
Definition stemmer (token : string) : option string := Some (porterStemmer token).

(** *** lunr.trimmer: [s.replace(/^\W+/, '').replace(/\W+$/, '')] *)

Fixpoint trim_start (s : string) : string :=
  match s with
  | EmptyString => EmptyString
  | String x r => if is_word x then s else trim_start r
  end.

(** The text up to and including its last word character. *)
Fixpoint trim_end (s : string) : string :=
  match s with
  | EmptyString => EmptyString
  | String x r =>
      match trim_end r with
      | EmptyString => if is_word x then String x EmptyString else EmptyString
      | r' => String x r'
      end
  end.

(** The trimmer returns a token object even when nothing is left of its
    text, so the pipeline keeps it. *)
Definition trimmer (token : string) : option string :=
  Some (trim_end (trim_start token)).

(** *** lunr.stopWordFilter *)

Definition stopWords : list string :=
  [ "a"; "able"; "about"; "across"; "after"; "all"; "almost"; "also"; "am";
    "among"; "an"; "and"; "any"; "are"; "as"; "at"; "be"; "because"; "been";
    "but"; "by"; "can"; "cannot"; "could"; "dear"; "did"; "do"; "does";
    "either"; "else"; "ever"; "every"; "for"; "from"; "get"; "got"; "had";
    "has"; "have"; "he"; "her"; "hers"; "him"; "his"; "how"; "however"; "i";
    "if"; "in"; "into"; "is"; "it"; "its"; "just"; "least"; "let"; "like";
    "likely"; "may"; "me"; "might"; "most"; "must"; "my"; "neither"; "no";
    "nor"; "not"; "of"; "off"; "often"; "on"; "only"; "or"; "other"; "our";
    "own"; "rather"; "said"; "say"; "says"; "she"; "should"; "since"; "so";
    "some"; "than"; "that"; "the"; "their"; "them"; "then"; "there"; "these";
    "they"; "this"; "tis"; "to"; "too"; "twas"; "us"; "wants"; "was"; "we";
    "were"; "what"; "when"; "where"; "which"; "while"; "who"; "whom"; "why";
    "will"; "with"; "would"; "yet"; "you"; "your" ].

(** Modelled from the spec: the default stop word filter,
    [generateStopWordFilter(stopWords)].  A stop word yields
    [undefined], which the pipeline drops. *)
Definition stopWordFilter (token : string) : option string :=
  if existsb (String.eqb token) stopWords then None else Some token.

(** *** lunr.Pipeline *)

(** A pipeline function maps a token to a token or to nothing. *)
Definition PipelineFunction := string → option string.

(** [Pipeline.prototype.run]: every function of the stack in turn over
    all tokens, dropping the tokens a function maps to nothing. *)
Definition Pipeline_run (stack : list PipelineFunction) (tokens : list string)
  : list string :=
  fold_left (λ tokens fn, omap fn tokens) stack tokens.

(** [Pipeline.prototype.runString]. *)
Definition Pipeline_runString (stack : list PipelineFunction) (str : string)
  : list string :=
  Pipeline_run stack [str].

(** *** lunr.tokenizer *)

(** [lunr.tokenizer.separator], [/[\s\-]+/], on one character. *)
Definition separator (x : ascii) : bool := is_white x || Ascii.eqb x "-".

(** The slicing loop: [slice] is the text since [sliceStart]; a separator
    or the end of the text closes a non-empty slice. *)
Fixpoint slices (slice : string) (str : string) : list string :=
  match str with
  | EmptyString => if String.eqb slice "" then [] else [slice]
  | String x r =>
      if separator x
      then (if String.eqb slice "" then [] else [slice]) ++ slices "" r
      else slices (slice ++ String x "") r
  end.

(** [lunr.utils.asString]. *)
Definition asString (obj : value) : result string :=
  match obj with
  | VUndefined | VNull => Ok ""
  | _ => toString obj
  end.

(** Modelled from the spec: the default tokenization,
    [lunr.tokenizer(obj)].  Nothing for [null] and [undefined], one
    token per element for an array, the lower-cased slices of its text
    for anything else. *)
Definition tokenizer (obj : value) : result (list string) :=
  match obj with
  | VUndefined | VNull => Ok []
  | VArr l => mapM (λ t, s ← asString t; Ok (toLowerCase s)) l
  | _ => str ← toString obj; Ok (slices "" (toLowerCase str))
  end.

(** *** Objects used as dictionaries

    Keys in insertion order; assigning to a present key keeps its
    place. *)
Definition obj (A : Type) : Type := list (string * A).

Fixpoint oset {A} (o : obj A) (k : string) (x : A) : obj A :=
  match o with
  | [] => [(k, x)]
  | (k', y) :: r => if String.eqb k' k then (k', x) :: r else (k', y) :: oset r k x
  end.

Definition okeys {A} (o : obj A) : list string := map fst o.

(** *** lunr.FieldRef: [fieldName + "/" + docRef] *)

Definition joiner : string := "/".

Definition FieldRef_toString (docRef fieldName : string) : string :=
  fieldName ++ joiner ++ docRef.

(** The field name of [FieldRef.fromString]: the text before the first
    joiner. *)
Fixpoint FieldRef_fieldName (s : string) : string :=
  match s with
  | EmptyString => EmptyString
  | String x r => if Ascii.eqb x "/" then EmptyString else String x (FieldRef_fieldName r)
  end.

(** *** lunr.Builder *)

(** An entry of the inverted index: the number of the term and, per
    field, the documents whose field has the term.  The metadata
    whitelist is empty by default, so what is stored per document is the
    empty object, here [tt]. *)
Record posting := {
  _index : nat;
  byField : obj (obj unit);
}.

Record Builder := {
  _ref : string;
  _fields : obj unit;
  _documents : obj unit;
  invertedIndex : obj posting;
  fieldTermFrequencies : obj (obj nat);
  fieldLengths : obj nat;
  pipeline : list PipelineFunction;
  searchPipeline : list PipelineFunction;
  documentCount : nat;
  termIndex : nat;
}.

(** [new lunr.Builder]. *)
Definition new_Builder : Builder :=
  {| _ref := "id"; _fields := []; _documents := []; invertedIndex := [];
     fieldTermFrequencies := []; fieldLengths := [];
     pipeline := []; searchPipeline := [];
     documentCount := 0; termIndex := 0 |}.

(** [Builder.prototype.ref]. *)
Definition Builder_ref (this : Builder) (ref : string) : Builder :=
  {| _ref := ref; _fields := _fields this; _documents := _documents this;
     invertedIndex := invertedIndex this;
     fieldTermFrequencies := fieldTermFrequencies this;
     fieldLengths := fieldLengths this;
     pipeline := pipeline this; searchPipeline := searchPipeline this;
     documentCount := documentCount this; termIndex := termIndex this |}.

(** [Builder.prototype.field], without attributes. *)
Definition Builder_field (this : Builder) (fieldName : string) : result Builder :=
  if existsb (Ascii.eqb "/") (list_ascii_of_string fieldName) then Throw RangeError
  else Ok {| _ref := _ref this; _fields := oset (_fields this) fieldName tt;
             _documents := _documents this;
             invertedIndex := invertedIndex this;
             fieldTermFrequencies := fieldTermFrequencies this;
             fieldLengths := fieldLengths this;
             pipeline := pipeline this; searchPipeline := searchPipeline this;
             documentCount := documentCount this; termIndex := termIndex this |}.

(** The body of the loop over the terms of one field of one document, on
    the term frequencies of the field, the inverted index and the term
    counter.  The posting of a new term gets an empty entry for every
    field registered so far; the script registers all fields before it
    adds documents, so the field of an existing posting is present. *)
Definition add_term (fields : list string) (fieldName docRef : string)
    (st : obj nat * obj posting * nat) (term : string)
  : obj nat * obj posting * nat :=
  let '(fieldTerms, inverted, counter) := st in
  let fieldTerms := oset fieldTerms term (S (default 0 (own fieldTerms term))) in
  let p :=
    match own inverted term with
    | Some p => p
    | None => {| _index := counter;
                 byField := fold_left (λ o f, oset o f []) fields [] |}
    end in
  let counter :=
    match own inverted term with Some _ => counter | None => S counter end in
  let docs := default [] (own (byField p) fieldName) in
  let docs := match own docs docRef with Some _ => docs | None => oset docs docRef tt end in
  (fieldTerms,
   oset inverted term {| _index := _index p; byField := oset (byField p) fieldName docs |},
   counter).

(** The terms of a field value: its tokens run through the pipeline. *)
Definition field_terms (stack : list PipelineFunction) (field : value)
  : result (list string) :=
  tokens ← tokenizer field;
  Ok (Pipeline_run stack tokens).

(** The body of the loop over the fields of one document. *)
Definition add_field (doc : value) (docRef : string) (this : Builder)
    (fieldName : string) : result Builder :=
  field ← get doc fieldName;
  terms ← field_terms (pipeline this) field;
  let fieldRef := FieldRef_toString docRef fieldName in
  let '(fieldTerms, inverted, counter) :=
    fold_left (add_term (okeys (_fields this)) fieldName docRef) terms
              ([], invertedIndex this, termIndex this) in
  Ok {| _ref := _ref this; _fields := _fields this; _documents := _documents this;
        invertedIndex := inverted;
        fieldTermFrequencies := oset (fieldTermFrequencies this) fieldRef fieldTerms;
        fieldLengths := oset (fieldLengths this) fieldRef (length terms);
        pipeline := pipeline this; searchPipeline := searchPipeline this;
        documentCount := documentCount this; termIndex := counter |}.

(** The first two statements of [add]: the document is stored under its
    reference, and counted. *)
Definition counted (this : Builder) (docRef : string) : Builder :=
  {| _ref := _ref this; _fields := _fields this;
     _documents := oset (_documents this) docRef tt;
     invertedIndex := invertedIndex this;
     fieldTermFrequencies := fieldTermFrequencies this;
     fieldLengths := fieldLengths this;
     pipeline := pipeline this; searchPipeline := searchPipeline this;
     documentCount := S (documentCount this); termIndex := termIndex this |}.

(** Modelled from the spec: how a document enters the index,
    [Builder.prototype.add] without attributes.  The reference is used
    as a property key, which converts it to a string. *)
Definition Builder_add (this : Builder) (doc : value) : result Builder :=
  ref ← get doc (_ref this);
  docRef ← toString ref;
  let this := counted this docRef in
  foldM (add_field doc docRef) (okeys (_fields this)) this.

(** *** lunr.Index *)

(** The weight of a term in a field of a document is a floating-point
    number computed from these integers (term frequency, length of the
    field, total length and number of the fields of that name, number of
    field postings of the term, number of documents) with the default
    parameters [k1 = 1.2], [b = 0.75] and boosts of 1.  The number
    itself is not computed here. *)
Record score := {
  tf : nat;
  fieldLength : nat;
  fieldLengthTotal : nat;
  documentsWithField : nat;
  documentsWithTerm : nat;
  documents : nat;
}.

(** [lunr.Vector.prototype.insert]: entries sorted by term number.  The
    terms of a field have distinct numbers. *)
Fixpoint Vector_insert (i : nat) (x : score) (vec : list (nat * score))
  : list (nat * score) :=
  match vec with
  | [] => [(i, x)]
  | (j, y) :: r => if (i <? j)%nat then (i, x) :: vec else (j, y) :: Vector_insert i x r
  end.

Record Index := {
  idx_invertedIndex : obj posting;
  fieldVectors : obj (list (nat * score));
  fields : list string;
  idx_pipeline : list PipelineFunction;
}.

(** The fields named [fieldName] among the field lengths: how many, and
    their total length ([calculateAverageFieldLengths]). *)
Definition fieldLengthStats (lengths : obj nat) (fieldName : string) : nat * nat :=
  fold_left (λ '(count, total) '(fieldRef, len),
               if String.eqb (FieldRef_fieldName fieldRef) fieldName
               then (S count, total + len) else (count, total))
            lengths (0, 0).

(** The count [lunr.idf] takes from a posting. *)
Definition postingCount (p : posting) : nat :=
  fold_left (λ n '(_, docs), n + length docs) (byField p) 0.

(** [createFieldVectors]. *)
Definition createFieldVectors (this : Builder) : obj (list (nat * score)) :=
  map (λ '(fieldRef, termFrequencies),
         let fieldName := FieldRef_fieldName fieldRef in
         let '(count, total) := fieldLengthStats (fieldLengths this) fieldName in
         (fieldRef,
          fold_left (λ vec '(term, freq),
                       match own (invertedIndex this) term with
                       | Some p =>
                           Vector_insert (_index p)
                             {| tf := freq;
                                fieldLength := default 0 (own (fieldLengths this) fieldRef);
                                fieldLengthTotal := total;
                                documentsWithField := count;
                                documentsWithTerm := postingCount p;
                                documents := documentCount this |} vec
                       | None => vec
                       end)
                    termFrequencies []))
      (fieldTermFrequencies this).

(** Modelled from the spec: the built index, [Builder.prototype.build].
    The token set of the index is determined by the keys of the inverted
    index and is not kept separately. *)
Definition build (this : Builder) : Index :=
  {| idx_invertedIndex := invertedIndex this;
     fieldVectors := createFieldVectors this;
     fields := okeys (_fields this);
     idx_pipeline := searchPipeline this |}.

(** The builder [lunr(config)] starts from: a new one with the trimmer,
    the stop word filter and the stemmer in its pipeline, and the
    stemmer in its search pipeline. *)
Definition default_Builder : Builder :=
  {| _ref := _ref new_Builder; _fields := _fields new_Builder;
     _documents := _documents new_Builder;
     invertedIndex := invertedIndex new_Builder;
     fieldTermFrequencies := fieldTermFrequencies new_Builder;
     fieldLengths := fieldLengths new_Builder;
     pipeline := [trimmer; stopWordFilter; stemmer];
     searchPipeline := [stemmer];
     documentCount := documentCount new_Builder;
     termIndex := termIndex new_Builder |}.

(** The convenience function [lunr(config)]. *)
Definition lunr (config : Builder → result Builder) : result Index :=
  builder ← config default_Builder;
  Ok (build builder).

(** *** Reading an index *)

(** The text after the first joiner of a field reference. *)
Fixpoint FieldRef_docRef (s : string) : string :=
  match s with
  | EmptyString => EmptyString
  | String x r => if Ascii.eqb x "/" then r else FieldRef_docRef r
  end.

(** [l] without repetitions, first occurrences kept: the keys of an
    object the elements of [l] are assigned to in turn. *)
Definition dedup (l : list string) : list string :=
  fold_left (λ (seen : list string) x,
               if decide (x ∈ seen) then seen else (seen ++ [x])%list) l [].

(** The document references an index holds field vectors for. *)
Definition references (idx : Index) : list string :=
  dedup (map FieldRef_docRef (okeys (fieldVectors idx))).

(** The documents a term leads to: those of its posting, over all
    fields. *)
Definition term_documents (idx : Index) (term : string) : list string :=
  match own (idx_invertedIndex idx) term with
  | Some p =>
      dedup (concat (map (λ f, okeys (default [] (own (byField p) f))) (fields idx)))
  | None => []
  end.

(** The inverted index has a posting of [term] for the field [field] of
    the document [docRef]. *)
Definition has_posting (inverted : obj posting) (term field docRef : string) : Prop :=
  ∃ p docs, own inverted term = Some p
            ∧ own (byField p) field = Some docs
            ∧ is_Some (own docs docRef).

(** A query made of one plain term: not empty, no separator and none of
    the characters the query language gives a meaning to (field [:],
    edit distance [~], boost [^], presence [+] and [-], wildcard [*],
    escape). *)
Definition plain_term (q : string) : bool :=
  negb (String.eqb q "") &&
  forallb (λ x, negb (separator x || one_of ":~^+*" x || (code x =? 92)%nat))
          (list_ascii_of_string q).

(** Modelled from the spec: lookup in the index,
    [Index.prototype.search] on a plain term.  The term is lower-cased,
    run through the search pipeline, and every document of a resulting
    term is a result.  Results are given without their scores and not in
    score order; queries that use the query language are outside this
    definition ([None]). *)
Definition search (idx : Index) (q : string) : option (list string) :=
  if plain_term q then
    Some (dedup (concat (map (term_documents idx)
                             (Pipeline_runString (idx_pipeline idx) (toLowerCase q)))))
  else None.

End Lunr.

(* ================================================================== *)
(** ** scripts/build_lunr_index.mjs *)
(* ================================================================== *)

Module BuildLunrIndex.
Import JS Lunr.

Definition docsPath : string := "out/github-docs.json".
Definition idxPath : string := "out/github-lunr-index.json".

(** What the script can observe and change: the files (path to
    content), the paths that cannot be written, and the lines printed so
    far. *)
Record world := {
  files : gmap string string;
  unwritable : gset string;
  stdout : list string;
}.

(** [fs.readFileSync(path, "utf-8")]. *)
Definition readFileSync (w : world) (path : string) : result string :=
  match files w !! path with
  | Some text => Ok text
  | None => Throw ENOENT
  end.

(** [fs.writeFileSync(path, data)]: the whole content or nothing. *)
Definition writeFileSync (w : world) (path data : string) : world * result unit :=
  if decide (path ∈ unwritable w) then (w, Throw EACCES)
  else ({| files := <[path := data]> (files w);
           unwritable := unwritable w;
           stdout := stdout w |}, Ok tt).

(** [console.log(line)]. *)
Definition console_log (w : world) (line : string) : world :=
  {| files := files w; unwritable := unwritable w; stdout := stdout w ++ [line] |}.

(** The exit status of the process: an uncaught exception ends it with
    status 1. *)
Definition exit_status (r : result unit) : nat :=
  match r with Ok _ => 0 | Throw _ => 1 end.

(** The object literal handed to [this.add] for the document [d]
    (lines 17-22). *)
Definition added_doc (d : value) : result value :=
  id ← get d "id";
  title ← get d "title";
  excerpt ← get d "excerpt";
  labels ← get d "labels";
  joined ← join (or_else labels (VArr [])) " ";
  Ok (VObj [ ("id", id);
             ("title", or_else title (VStr ""));
             ("excerpt", or_else excerpt (VStr ""));
             ("labels", VStr joined) ]).

(** The function passed to [lunr] (lines 11-24), with [this] threaded
    through. *)
Definition config (docs : value) (this : Builder) : result Builder :=
  let this := Builder_ref this "id" in
  this ← Builder_field this "title";
  this ← Builder_field this "excerpt";
  this ← Builder_field this "labels";
  ds ← iterate docs;
  foldM (λ this d, doc ← added_doc d; Builder_add this doc) ds this.

(** [lunr(function () { ... })] for the parsed documents. *)
Definition build_index (docs : value) : result Index := lunr (config docs).

Section Script.

(** [JSON.parse] on the text of the input file ([None]: a
    [SyntaxError]), and [JSON.stringify] on the built index. *)
Variable JSON_parse : string → option value.
Variable JSON_stringify : Index → string.

(** [JSON.stringify(idx)] for the index of the parsed documents. *)
Definition index_json (docs : value) : result string :=
  idx ← build_index docs;
  Ok (JSON_stringify idx).

(** Lines 8-24 and the argument of the write: everything before the
    output file is touched. *)
Definition serialized_index (w : world) : result (value * string) :=
  text ← readFileSync w docsPath;
  docs ← match JSON_parse text with
         | Some v => Ok v
         | None => Throw SyntaxError
         end;
  json ← index_json docs;
  Ok (docs, json).

(** The whole script: the world it leaves and how it ends. *)
Definition main (w : world) : world * result unit :=
  match serialized_index w with
  | Throw e => (w, Throw e)
  | Ok (docs, json) =>
      match writeFileSync w idxPath json with
      | (w', Throw e) => (w', Throw e)
      | (w', Ok _) =>
          (console_log w' ("Wrote " ++ idxPath ++ " (" ++ pretty (length_of docs)
                           ++ " docs)"),
           Ok tt)
      end
  end.

End Script.

(** *** Documents

    The record of the data model, as a predicate on parsed values: an
    object whose [id], [title] and [excerpt] are strings and whose
    [labels] is an array of strings, each of them possibly missing.
    Other properties ([type], [number], [url], [updated_at]) are free. *)
Definition string_or_missing (x : value) : bool :=
  match x with VUndefined | VStr _ => true | _ => false end.

Definition is_string (x : value) : bool :=
  match x with VStr _ => true | _ => false end.

Definition labels_or_missing (x : value) : bool :=
  match x with
  | VUndefined => true
  | VArr l => forallb is_string l
  | _ => false
  end.

Definition is_document (d : value) : bool :=
  match d with
  | VObj props =>
      string_or_missing (default VUndefined (own props "id"))
      && string_or_missing (default VUndefined (own props "title"))
      && string_or_missing (default VUndefined (own props "excerpt"))
      && labels_or_missing (default VUndefined (own props "labels"))
  | _ => false
  end.

(** The text of a string property, empty when it is missing, and the
    labels of a label array, none when it is missing. *)
Definition text_of (x : value) : string :=
  match x with VStr s => s | _ => "" end.

Definition labels_of (x : value) : list string :=
  match x with VArr l => map text_of l | _ => [] end.

(** The reference key a document gets: its [id] as a property key. *)
Definition doc_ref (d : value) : result string :=
  id ← get d "id";
  toString id.

(** Two documents that read the same at the four properties the script
    looks at, whatever else they hold. *)
Definition same_indexed_fields (d1 d2 : value) : Prop :=
  get d1 "id" = get d2 "id"
  ∧ get d1 "title" = get d2 "title"
  ∧ get d1 "excerpt" = get d2 "excerpt"
  ∧ get d1 "labels" = get d2 "labels".

(** A builder as the script has it once [ref] and [field] were called:
    reference key [id], the three fields, the default pipelines. *)
Definition configured (b : Builder) : Prop :=
  _ref b = "id"
  ∧ okeys (_fields b) = ["title"; "excerpt"; "labels"]
  ∧ pipeline b = [trimmer; stopWordFilter; stemmer]
  ∧ searchPipeline b = [stemmer].

(** Two builders that agree on everything the inverted index of later
    additions depends on: the configuration, the inverted index so far
    and the term counter. *)
Definition same_postings (b1 b2 : Builder) : Prop :=
  _ref b1 = _ref b2 ∧ _fields b1 = _fields b2
  ∧ pipeline b1 = pipeline b2 ∧ searchPipeline b1 = searchPipeline b2
  ∧ invertedIndex b1 = invertedIndex b2 ∧ termIndex b1 = termIndex b2.

(** A document of the data model without text: no title or an empty
    one, no excerpt or an empty one, no labels or an empty list. *)
Definition no_text (d : value) : bool :=
  match d with
  | VObj props =>
      String.eqb (text_of (default VUndefined (own props "title"))) ""
      && String.eqb (text_of (default VUndefined (own props "excerpt"))) ""
      && match labels_of (default VUndefined (own props "labels")) with
         | [] => true
         | _ => false
         end
  | _ => false
  end.

(** The field references of a document: one per registered field. *)
Definition doc_fieldRefs (docRef : string) : list string :=
  [ FieldRef_toString docRef "title";
    FieldRef_toString docRef "excerpt";
    FieldRef_toString docRef "labels" ].

(** *** The defaulted expressions of the object literal *)

(** [d.k || ""] (lines 19 and 20, with [k] the title or the excerpt). *)
Definition text_arg (d : value) (k : string) : result value :=
  x ← get d k;
  Ok (or_else x (VStr "")).

(** [(d.labels || []).join(" ")] (line 21). *)
Definition labels_arg (d : value) : result string :=
  labels ← get d "labels";
  join (or_else labels (VArr [])) " ".

(** Two documents for which the four expressions of the object literal
    evaluate alike. *)
Definition same_arguments (d1 d2 : value) : Prop :=
  get d1 "id" = get d2 "id"
  ∧ text_arg d1 "title" = text_arg d2 "title"
  ∧ text_arg d1 "excerpt" = text_arg d2 "excerpt"
  ∧ labels_arg d1 = labels_arg d2.

End BuildLunrIndex.

(* ================================================================== *)
(** ** Sample inputs *)
(* ================================================================== *)

Module Samples.
Import JS Lunr BuildLunrIndex.

(** The document of the spec's example. *)
Definition issue_42 : value :=
  VObj [ ("id", VStr "issue-42");
         ("title", VStr "Cannot export PDF");
         ("excerpt", VStr "export fails silently");
         ("labels", VArr [VStr "bug"; VStr "pdf"]) ].

(** The same document as the fetcher writes it, with all its
    properties, and a variant that differs in the properties the
    indexer does not read. *)
Definition issue_42_full : value :=
  VObj [ ("id", VStr "issue-42"); ("type", VStr "issue"); ("number", VNum "42");
         ("title", VStr "Cannot export PDF");
         ("url", VStr "https://github.com/paperless-ngx/paperless-ngx/issues/42");
         ("labels", VArr [VStr "bug"; VStr "pdf"]);
         ("updated_at", VStr "2025-01-01T00:00:00Z");
         ("excerpt", VStr "export fails silently") ].

Definition issue_42_other : value :=
  VObj [ ("id", VStr "issue-42"); ("type", VStr "discussion"); ("number", VNum "7");
         ("title", VStr "Cannot export PDF");
         ("url", VStr "https://example.org/7");
         ("labels", VArr [VStr "bug"; VStr "pdf"]);
         ("updated_at", VStr "2026-06-30T12:00:00Z");
         ("excerpt", VStr "export fails silently") ].

(** Two documents with one id. *)
Definition same_id_docs : list value :=
  [ VObj [("id", VStr "issue-1"); ("title", VStr "first report")];
    VObj [("id", VStr "issue-1"); ("title", VStr "second report")] ].

(** A document whose title stems to a word the stemmer changes again. *)
Definition agreed_doc : value :=
  VObj [("id", VStr "issue-7"); ("title", VStr "agreed")].

(** A document without an id, and one with nothing but an id. *)
Definition no_id_doc : value := VObj [("title", VStr "orphan report")].
Definition bare_doc : value := VObj [("id", VStr "issue-9")].

(** A document whose three text fields are present and empty. *)
Definition empty_doc : value :=
  VObj [ ("id", VStr "issue-8"); ("title", VStr ""); ("excerpt", VStr "");
         ("labels", VArr []) ].

(** A stand-in for [JSON.parse] that knows two texts, and one for
    [JSON.stringify] that lists the terms of the index. *)
Definition sample_text : string := "<issue-42>".

Definition sample_parse (text : string) : option value :=
  if String.eqb text sample_text then Some (VArr [issue_42_full])
  else if String.eqb text "[]" then Some (VArr [])
  else None.

Definition sample_stringify (idx : Index) : string :=
  String.concat "," (okeys (idx_invertedIndex idx)).

(** A world with the sample input and nothing else, and an empty one. *)
Definition sample_world : world :=
  {| files := {[ docsPath := sample_text ]}; unwritable := ∅; stdout := [] |}.

Definition empty_world : world :=
  {| files := ∅; unwritable := ∅; stdout := [] |}.

(** The builder the script's function leaves for [docs], for inputs on
    which it does not throw. *)
Definition builder_of (docs : value) : Builder :=
  match config docs default_Builder with
  | Ok b => b
  | Throw _ => default_Builder
  end.

(** The index built from [docs], for inputs on which the build does not
    throw. *)
Definition index_of (docs : value) : Index :=
  match build_index docs with
  | Ok idx => idx
  | Throw _ => build default_Builder
  end.

(** Two documents that differ in how their empty fields and their
    labels are written. *)
Definition null_fields_doc : value :=
  VObj [ ("id", VStr "issue-3"); ("title", VNull); ("excerpt", VBool false);
         ("labels", VArr [VStr "good first issue"]) ].

Definition split_labels_doc : value :=
  VObj [ ("id", VStr "issue-3"); ("title", VStr "");
         ("labels", VArr [VStr "good"; VStr "first"; VStr "issue"]) ].

(** A document whose labels are one string instead of an array. *)
Definition string_labels_doc : value :=
  VObj [("id", VStr "issue-4"); ("title", VStr "broken"); ("labels", VStr "bug")].

(** An input with that document between two good ones. *)
Definition bad_text : string := "<issue-42,issue-4,issue-9>".

Definition bad_parse (text : string) : option value :=
  if String.eqb text bad_text then Some (VArr [issue_42; string_labels_doc; bare_doc])
  else sample_parse text.

Definition bad_world : world :=
  {| files := {[ docsPath := bad_text ]}; unwritable := ∅; stdout := [] |}.


End Samples.

(* ================================================================== *)
(** ** Properties of the script *)
(* ================================================================== *)

Import JS Lunr BuildLunrIndex Samples.
Open Scope list_scope.

#[local] Arguments porterStemmer : simpl never.
#[local] Arguments tokenizer : simpl never.
#[local] Arguments Pipeline_run : simpl never.
#[local] Arguments field_terms : simpl never.
#[local] Arguments toString : simpl never.
#[local] Arguments add_field : simpl never.
#[local] Arguments add_term : simpl never.

(** Case analysis on the computations an [Ok] result went through. *)
Ltac bind_inv H :=
  unfold mbind, result_bind in H;
  repeat match type of H with
         | context [match ?x with Ok _ => _ | Throw _ => _ end] =>
             let E := fresh "E" in destruct x eqn:E; [|discriminate H]
         end.

(** *** The library model on known inputs *)

(** The stemmer on words of Porter's published vocabulary. *)
Example porterStemmer_vocabulary :
  map porterStemmer
      [ "caresses"; "ponies"; "ties"; "caress"; "cats"; "feed"; "agreed";
        "plastered"; "bled"; "motoring"; "sing"; "conflated"; "troubled";
        "sized"; "hopping"; "tanned"; "falling"; "hissing"; "fizzed";
        "failing"; "filing"; "happy"; "relational"; "conditional";
        "rational"; "digitizer"; "radically"; "differently"; "vilely";
        "analogously"; "vietnamization"; "predication"; "operator";
        "feudalism"; "decisiveness"; "hopefulness"; "callousness";
        "formality"; "sensitivity"; "sensibility"; "triplicate"; "formative";
        "formalize"; "electricity"; "electrical"; "hopeful"; "goodness";
        "revival"; "allowance"; "inference"; "airliner"; "gyroscopic";
        "adjustable"; "defensible"; "irritant"; "replacement"; "adjustment";
        "dependent"; "adoption"; "homologous"; "communism"; "activate";
        "angularity"; "effective"; "bowdlerize"; "probate"; "rate"; "cease";
        "controlling"; "rolling"; "yearly"; "by" ]
  = [ "caress"; "poni"; "ti"; "caress"; "cat"; "feed"; "agre";
      "plaster"; "bled"; "motor"; "sing"; "conflat"; "troubl";
      "size"; "hop"; "tan"; "fall"; "hiss"; "fizz";
      "fail"; "file"; "happi"; "relat"; "condit";
      "ration"; "digit"; "radic"; "differ"; "vile";
      "analog"; "vietnam"; "predic"; "oper";
      "feudal"; "decis"; "hope"; "callous";
      "formal"; "sensit"; "sensibl"; "triplic"; "form";
      "formal"; "electr"; "electr"; "hope"; "good";
      "reviv"; "allow"; "infer"; "airlin"; "gyroscop";
      "adjust"; "defens"; "irrit"; "replac"; "adjust";
      "depend"; "adopt"; "homolog"; "commun"; "activ";
      "angular"; "effect"; "bowdler"; "probat"; "rate"; "ceas";
      "control"; "roll"; "yearli"; "by" ].
Proof. vm_compute. reflexivity. Qed.

(** The stemmer is not idempotent. *)
Example porterStemmer_twice :
  porterStemmer "agreed" = "agre" ∧ porterStemmer "agre" = "agr".
Proof. split; vm_compute; reflexivity. Qed.

(** Tokens are split at white space and hyphens and lower-cased; the
    pipeline trims them, drops stop words and stems the rest.  A token
    without a word character survives as the empty term. *)
Example tokenizer_sample :
  tokenizer (VStr "Cannot export  PDF-files !!! (today)")
  = Ok ["cannot"; "export"; "pdf"; "files"; "!!!"; "(today)"].
Proof. vm_compute. reflexivity. Qed.

Example field_terms_sample :
  field_terms [trimmer; stopWordFilter; stemmer]
              (VStr "Cannot export  PDF-files !!! (today)")
  = Ok ["export"; "pdf"; "file"; ""; "today"].
Proof. vm_compute. reflexivity. Qed.

(** The inverted index and the field references of the spec's example. *)
Example issue_42_index :
  okeys (idx_invertedIndex (index_of (VArr [issue_42])))
  = ["export"; "pdf"; "fail"; "silent"; "bug"]
  ∧ okeys (fieldVectors (index_of (VArr [issue_42])))
    = ["title/issue-42"; "excerpt/issue-42"; "labels/issue-42"]
  ∧ fields (index_of (VArr [issue_42])) = ["title"; "excerpt"; "labels"].
Proof. repeat split; vm_compute; reflexivity. Qed.

(** The script on the sample world: the index is written, one line is
    printed, the input is left alone. *)
Example main_sample :
  let w := fst (main sample_parse sample_stringify sample_world) in
  snd (main sample_parse sample_stringify sample_world) = Ok tt
  ∧ files w !! idxPath = Some "export,pdf,fail,silent,bug"
  ∧ files w !! docsPath = Some sample_text
  ∧ stdout w = ["Wrote out/github-lunr-index.json (1 docs)"].
Proof. repeat split; vm_compute; reflexivity. Qed.

Lemma is_Ok_true {A} (r : result A) : is_Ok r = true → ∃ a, r = Ok a.
Proof. destruct r; [eauto|discriminate]. Qed.

Lemma build_index_index_of docs :
  is_Ok (build_index docs) = true → build_index docs = Ok (index_of docs).
Proof. unfold index_of. destruct (build_index docs); [reflexivity|discriminate]. Qed.

Lemma config_builder_of docs :
  is_Ok (config docs default_Builder) = true →
  config docs default_Builder = Ok (builder_of docs).
Proof.
  unfold builder_of. destruct (config docs default_Builder); [reflexivity|discriminate].
Qed.

(** *** Failures before the write *)

(** Whatever makes the script throw, the world is left as it was found:
    the only statement that changes it is the write, and nothing follows
    a failed write. *)
Lemma main_throw_unchanged JSON_parse JSON_stringify w w' e :
  main JSON_parse JSON_stringify w = (w', Throw e) → w' = w.
Proof.
  unfold main, writeFileSync.
  destruct (serialized_index _ _ w) as [[docs json]|e0]; [|congruence].
  case_decide; intros [= <- _]; reflexivity.
Qed.

(** The script ends normally exactly when reading, parsing and building
    succeed and the output path can be written; the world it leaves then
    has the serialised index at the output path and one more line of
    output. *)
Lemma main_ok_iff JSON_parse JSON_stringify w w' :
  main JSON_parse JSON_stringify w = (w', Ok tt) ↔
  ∃ docs json,
    serialized_index JSON_parse JSON_stringify w = Ok (docs, json)
    ∧ (idxPath ∉ unwritable w)
    ∧ w' = console_log
             {| files := <[idxPath := json]> (files w);
                unwritable := unwritable w; stdout := stdout w |}
             ("Wrote " ++ idxPath ++ " (" ++ pretty (length_of docs) ++ " docs)")%string.
Proof.
  unfold main, writeFileSync. split.
  - destruct (serialized_index _ _ w) as [[docs json]|e0]; [|congruence].
    case_decide; [congruence|]. intros [= <-]. eauto.
  - intros (docs & json & -> & Hw & ->). case_decide; [contradiction|reflexivity].
Qed.

(** What is serialised depends on the world through the text of the
    input file only. *)
Lemma serialized_index_input JSON_parse JSON_stringify w1 w2 :
  files w1 !! docsPath = files w2 !! docsPath →
  serialized_index JSON_parse JSON_stringify w1
  = serialized_index JSON_parse JSON_stringify w2.
Proof. unfold serialized_index, readFileSync. intros ->. reflexivity. Qed.

(** C3.  When the input file is missing, or its text is not JSON, the
    script throws ([ENOENT], respectively [SyntaxError]), the process
    ends with a non-zero status, and the world - the output file in
    particular - is exactly as before: nothing was created or
    modified. *)
Theorem input_error_no_output JSON_parse JSON_stringify (w : world) :
  (files w !! docsPath = None
   ∨ ∃ text, files w !! docsPath = Some text ∧ JSON_parse text = None) →
  ∃ e, main JSON_parse JSON_stringify w = (w, Throw e)
       ∧ (e = ENOENT ∨ e = SyntaxError)
       ∧ exit_status (snd (main JSON_parse JSON_stringify w)) ≠ 0
       ∧ files (fst (main JSON_parse JSON_stringify w)) !! idxPath
         = files w !! idxPath.
Proof.
  intros H.
  assert (∃ e, serialized_index JSON_parse JSON_stringify w = Throw e
               ∧ (e = ENOENT ∨ e = SyntaxError)) as (e & He & Hk).
  { unfold serialized_index, readFileSync.
    destruct H as [->|(text & -> & Hp)]; simpl.
    - eauto.
    - rewrite Hp. simpl. eauto. }
  exists e. unfold main. rewrite He. simpl. auto.
Qed.

(** *** Determinism across runs *)

Lemma docsPath_idxPath : docsPath ≠ idxPath.
Proof. discriminate. Qed.

(** C2.  A run that succeeds leaves a world in which a second run
    succeeds too and leaves every file, the output file included, with
    the same content.  More generally the content written is the same
    from any world in which the input file has the same text: the
    output is a function of that text alone (not of the previous output,
    of other files or of what was printed). *)
Theorem indexer_idempotent JSON_parse JSON_stringify (w w1 : world) :
  main JSON_parse JSON_stringify w = (w1, Ok tt) →
  (∃ w2, main JSON_parse JSON_stringify w1 = (w2, Ok tt)
         ∧ files w2 = files w1)
  ∧ (∀ w', files w' !! docsPath = files w !! docsPath →
           idxPath ∉ unwritable w' →
           ∃ w2', main JSON_parse JSON_stringify w' = (w2', Ok tt)
                  ∧ files w2' !! idxPath = files w1 !! idxPath).
Proof.
  intros H. apply main_ok_iff in H as (docs & json & Hs & Hw & ->).
  split.
  - eexists. split.
    + apply main_ok_iff. exists docs, json. split; [|split; [exact Hw|reflexivity]].
      rewrite <- Hs. apply serialized_index_input. simpl.
      apply lookup_insert_ne. intros E. symmetry in E. exact (docsPath_idxPath E).
    + simpl. apply insert_insert_eq.
  - intros w' Hin Hw'. eexists. split.
    + apply main_ok_iff. exists docs, json. split; [|split; [exact Hw'|reflexivity]].
      rewrite <- Hs. apply serialized_index_input. exact Hin.
    + simpl. rewrite !lookup_insert_eq. reflexivity.
Qed.

(** *** Only four properties are read *)

Lemma added_doc_same d1 d2 :
  same_indexed_fields d1 d2 → added_doc d1 = added_doc d2.
Proof.
  intros (Hi & Ht & He & Hl). unfold added_doc.
  rewrite Hi, Ht, He, Hl. reflexivity.
Qed.

Lemma foldM_Forall2 {A S} (f g : S → A → result S) l1 l2 :
  Forall2 (λ a b, ∀ s, f s a = g s b) l1 l2 →
  ∀ s, foldM f l1 s = foldM g l2 s.
Proof.
  induction 1 as [|a b l1 l2 Hab _ IH]; intros s; simpl; [reflexivity|].
  rewrite Hab. destruct (g s b); simpl; [apply IH|reflexivity].
Qed.

(** C10.  Two document lists that agree, document by document, on what
    [id], [title], [excerpt] and [labels] read as give the same
    serialised index, whatever their other properties ([type],
    [number], [url], [updated_at], ...) are. *)
Theorem index_ignores_other_fields JSON_stringify (docs1 docs2 : list value) :
  Forall2 same_indexed_fields docs1 docs2 →
  index_json JSON_stringify (VArr docs1) = index_json JSON_stringify (VArr docs2).
Proof.
  intros H.
  assert (∀ b, foldM (λ this d, doc ← added_doc d; Builder_add this doc) docs1 b
               = foldM (λ this d, doc ← added_doc d; Builder_add this doc) docs2 b) as E.
  { apply foldM_Forall2. eapply Forall2_impl; [exact H|].
    intros d1 d2 Hd s. simpl. rewrite (added_doc_same d1 d2 Hd). reflexivity. }
  unfold index_json, build_index, lunr, config. simpl.
  rewrite E. reflexivity.
Qed.

(** *** Dictionaries and lists without repetition *)

Lemma own_oset_eq {A} (o : obj A) k x : own (oset o k x) k = Some x.
Proof.
  induction o as [|[k' y] o IH]; simpl.
  - rewrite String.eqb_refl. reflexivity.
  - destruct (String.eqb k' k) eqn:E; simpl; rewrite E; [reflexivity|exact IH].
Qed.

Lemma own_oset_ne {A} (o : obj A) k k' x :
  k ≠ k' → own (oset o k x) k' = own o k'.
Proof.
  intros Hne. induction o as [|[k0 y] o IH]; simpl.
  - destruct (String.eqb k k') eqn:E; [|reflexivity].
    apply String.eqb_eq in E. contradiction.
  - destruct (String.eqb k0 k) eqn:E; simpl.
    + apply String.eqb_eq in E. subst k0.
      destruct (String.eqb k k') eqn:E'; [|reflexivity].
      apply String.eqb_eq in E'. contradiction.
    + rewrite IH. reflexivity.
Qed.

Lemma own_Some_keys {A} (o : obj A) k : is_Some (own o k) ↔ k ∈ okeys o.
Proof.
  induction o as [|[k' y] o IH]; simpl.
  - split; [intros [? [=]]|intros H; inversion H].
  - destruct (String.eqb k' k) eqn:E.
    + apply String.eqb_eq in E. subst. split; [intros _; left|eauto].
    + apply String.eqb_neq in E. rewrite IH. split; [right; assumption|].
      intros H. inversion H; subst; [contradiction|assumption].
Qed.

(** Assigning to a present key leaves the keys as they are; a new key
    goes last. *)
Lemma okeys_oset {A} (o : obj A) k x :
  okeys (oset o k x) = if decide (k ∈ okeys o) then okeys o else okeys o ++ [k].
Proof.
  induction o as [|[k' y] o IH]; cbn [oset okeys map fst].
  - destruct (decide (k ∈ [])) as [H|H]; [inversion H|reflexivity].
  - destruct (String.eqb k' k) eqn:E; cbn [okeys map fst].
    + apply String.eqb_eq in E. subst.
      destruct (decide (k ∈ k :: map fst o)) as [H|H]; [reflexivity|].
      exfalso. apply H. left.
    + apply String.eqb_neq in E. fold (okeys (oset o k x)). rewrite IH.
      fold (okeys o).
      destruct (decide (k ∈ okeys o)) as [H1|H1];
        destruct (decide (k ∈ k' :: okeys o)) as [H2|H2]; try reflexivity.
      * exfalso. apply H2. right. exact H1.
      * exfalso. inversion H2; subst; contradiction.
Qed.

Lemma dedup_app l m :
  dedup (l ++ m)
  = fold_left (λ (seen : list string) x,
                 if decide (x ∈ seen) then seen else seen ++ [x]) m (dedup l).
Proof. unfold dedup. apply fold_left_app. Qed.

Lemma dedup_snoc l x :
  dedup (l ++ [x]) = if decide (x ∈ dedup l) then dedup l else dedup l ++ [x].
Proof. rewrite dedup_app. reflexivity. Qed.

Lemma elem_of_dedup l x : x ∈ dedup l ↔ x ∈ l.
Proof.
  revert x. induction l as [|y l IH] using rev_ind; intros x; [reflexivity|].
  rewrite dedup_snoc, !elem_of_app, list_elem_of_singleton.
  destruct (decide (y ∈ dedup l)) as [H|H].
  - rewrite IH. rewrite IH in H. split; [auto|]. intros [?| ->]; assumption.
  - rewrite elem_of_app, list_elem_of_singleton, IH. reflexivity.
Qed.

Lemma NoDup_dedup l : NoDup (dedup l).
Proof.
  induction l as [|y l IH] using rev_ind; [constructor|].
  rewrite dedup_snoc. destruct (decide (y ∈ dedup l)) as [H|H]; [exact IH|].
  apply NoDup_app. split; [exact IH|]. split.
  - intros z Hz Hz'. apply list_elem_of_singleton in Hz'. subst. contradiction.
  - apply NoDup_singleton.
Qed.

Lemma dedup_NoDup l : NoDup l → dedup l = l.
Proof.
  induction l as [|y l IH] using rev_ind; [reflexivity|].
  intros H. apply NoDup_app in H as (Hl & Hy & _).
  rewrite dedup_snoc, (IH Hl). destruct (decide (y ∈ l)) as [H|H]; [|reflexivity].
  exfalso. apply (Hy y H). left.
Qed.

Lemma dedup_dedup l : dedup (dedup l) = dedup l.
Proof. apply dedup_NoDup, NoDup_dedup. Qed.

(** Each element three times over: the document references behind the
    field references of the documents [l]. *)
Lemma dedup_thrice l :
  dedup (concat (map (λ r : string, [r; r; r]) l)) = dedup l.
Proof.
  induction l as [|y l IH] using rev_ind; [reflexivity|].
  rewrite map_app, concat_app. cbn [map concat]. rewrite ?app_nil_r.
  rewrite dedup_app, IH, dedup_snoc. cbn [fold_left]. cbv beta.
  destruct (decide (y ∈ dedup l)) as [H|H].
  - rewrite !(decide_True (P := y ∈ dedup l)) by exact H. reflexivity.
  - cbv beta iota. rewrite ?(decide_False (P := y ∈ dedup l)) by exact H.
    rewrite !(decide_True (P := y ∈ dedup l ++ [y]))
      by (apply elem_of_app; right; left).
    reflexivity.
Qed.

(** *** How a builder changes when a document is added *)

(** A successful [add_field] read the field, computed its terms, and
    changed the three tables accordingly; everything else is kept. *)
Lemma add_field_inv doc r b f b' :
  add_field doc r b f = Ok b' →
  ∃ field terms,
    get doc f = Ok field
    ∧ field_terms (pipeline b) field = Ok terms
    ∧ invertedIndex b'
      = (fold_left (add_term (okeys (_fields b)) f r) terms
                   ([], invertedIndex b, termIndex b)).1.2
    ∧ termIndex b'
      = (fold_left (add_term (okeys (_fields b)) f r) terms
                   ([], invertedIndex b, termIndex b)).2
    ∧ fieldTermFrequencies b'
      = oset (fieldTermFrequencies b) (FieldRef_toString r f)
             (fold_left (add_term (okeys (_fields b)) f r) terms
                        ([], invertedIndex b, termIndex b)).1.1
    ∧ fieldLengths b' = oset (fieldLengths b) (FieldRef_toString r f) (length terms)
    ∧ _ref b' = _ref b ∧ _fields b' = _fields b ∧ _documents b' = _documents b
    ∧ pipeline b' = pipeline b ∧ searchPipeline b' = searchPipeline b
    ∧ documentCount b' = documentCount b.
Proof.
  unfold add_field. intros H. bind_inv H.
  destruct (fold_left _ _ _) as [[ft inv] cnt] eqn:Ef.
  injection H as <-. do 2 eexists. split; [reflexivity|]. split; [eassumption|].
  rewrite Ef. simpl. repeat split; reflexivity.
Qed.

Lemma add_field_ok doc r b f field terms :
  get doc f = Ok field →
  field_terms (pipeline b) field = Ok terms →
  is_Ok (add_field doc r b f) = true.
Proof.
  unfold add_field. intros -> Ht. simpl. rewrite Ht. simpl.
  destruct (fold_left _ _ _) as [[ft inv] cnt]. reflexivity.
Qed.

(** With the three fields registered, [add] is the three field steps in
    the order of registration. *)
Lemma Builder_add_configured b doc :
  configured b →
  Builder_add b doc =
    (ref ← get doc "id";
     docRef ← toString ref;
     b1 ← add_field doc docRef (counted b docRef) "title";
     b2 ← add_field doc docRef b1 "excerpt";
     add_field doc docRef b2 "labels").
Proof.
  intros (Href & Hfields & _). unfold Builder_add. rewrite Href.
  destruct (get doc "id") as [ref|]; [|reflexivity]. simpl.
  destruct (toString ref) as [docRef|]; [|reflexivity]. simpl.
  change (okeys (_fields (counted b docRef))) with (okeys (_fields b)).
  rewrite Hfields. simpl.
  destruct (add_field doc docRef (counted b docRef) "title"); [|reflexivity]. simpl.
  destruct (add_field doc docRef a "excerpt"); [|reflexivity]. simpl.
  destruct (add_field doc docRef a0 "labels"); reflexivity.
Qed.

Lemma add_field_configured doc r b f b' :
  add_field doc r b f = Ok b' → configured b → configured b'.
Proof.
  intros H (H1 & H2 & H3 & H4).
  apply add_field_inv in H
    as (? & ? & _ & _ & _ & _ & _ & _ & E1 & E2 & _ & E4 & E5 & _).
  unfold configured. rewrite E1, E2, E4, E5. auto.
Qed.

Lemma counted_configured b r : configured b → configured (counted b r).
Proof. intros H. exact H. Qed.

Lemma Builder_add_keeps_configured b doc b' :
  configured b → Builder_add b doc = Ok b' → configured b'.
Proof.
  intros Hc H. rewrite (Builder_add_configured b doc Hc) in H. bind_inv H.
  eapply add_field_configured; [exact H|].
  eapply add_field_configured; [eassumption|].
  eapply add_field_configured; [eassumption|].
  apply counted_configured, Hc.
Qed.

(** *** The loop over the documents *)

Lemma mapM_snoc {A B} (f : A → result B) l x ys y :
  mapM f l = Ok ys → f x = Ok y → mapM f (l ++ [x]) = Ok (ys ++ [y]).
Proof.
  revert ys. induction l as [|a l IH]; simpl; intros ys Hl Hx.
  - injection Hl as <-. rewrite Hx. reflexivity.
  - destruct (f a) as [b|]; [|discriminate]. simpl in *.
    destruct (mapM f l) as [bs|] eqn:E; [|discriminate]. simpl in *.
    injection Hl as <-. rewrite (IH bs eq_refl Hx). reflexivity.
Qed.

Lemma mapM_length {A B} (f : A → result B) l ys :
  mapM f l = Ok ys → length ys = length l.
Proof.
  revert ys. induction l as [|a l IH]; simpl; intros ys H.
  - injection H as <-. reflexivity.
  - destruct (f a) as [b|]; [|discriminate]. simpl in *.
    destruct (mapM f l) as [bs|]; [|discriminate]. simpl in *.
    injection H as <-. simpl. rewrite (IH bs eq_refl). reflexivity.
Qed.

Lemma mapM_elem_of {A B} (f : A → result B) l ys x :
  mapM f l = Ok ys → x ∈ l → ∃ y, f x = Ok y ∧ y ∈ ys.
Proof.
  revert ys. induction l as [|a l IH]; simpl; intros ys H Hx; [inversion Hx|].
  destruct (f a) as [b|] eqn:Ea; [|discriminate]. simpl in *.
  destruct (mapM f l) as [bs|]; [|discriminate]. simpl in *.
  injection H as <-. inversion Hx; subst.
  - exists b. split; [exact Ea|left].
  - destruct (IH bs eq_refl) as (y & Hy & Hin); [assumption|].
    exists y. split; [exact Hy|right; exact Hin].
Qed.

(** An invariant of a loop holds at its end if every step keeps it; the
    invariant may speak of the elements visited so far. *)
Lemma foldM_invariant {A S} (f : S → A → result S) (P : S → list A → Prop) :
  (∀ s seen x s', P s seen → f s x = Ok s' → P s' (seen ++ [x])) →
  ∀ l s seen s', P s seen → foldM f l s = Ok s' → P s' (seen ++ l).
Proof.
  intros Hstep. induction l as [|x l IH]; simpl; intros s seen s' HP H.
  - injection H as <-. rewrite app_nil_r. exact HP.
  - destruct (f s x) as [s1|] eqn:E; [|discriminate]. simpl in H.
    replace (seen ++ x :: l) with ((seen ++ [x]) ++ l)
      by (rewrite <- app_assoc; reflexivity).
    eapply IH; [|exact H]. eapply Hstep; eassumption.
Qed.

(** A loop whose every step succeeds from any state succeeds. *)
Lemma foldM_total {A S} (f : S → A → result S) (P : S → Prop) (Q : A → Prop) :
  (∀ s x, P s → Q x → ∃ s', f s x = Ok s' ∧ P s') →
  ∀ l s, P s → Forall Q l → ∃ s', foldM f l s = Ok s' ∧ P s'.
Proof.
  intros Hstep. induction l as [|x l IH]; simpl; intros s HP HQ.
  - eauto.
  - inversion HQ; subst.
    destruct (Hstep s x) as (s1 & -> & HP1); [assumption..|]. simpl.
    apply IH; assumption.
Qed.

(** The state of the builder when the loop starts. *)
Lemma config_loop :
  ∃ b0, configured b0
        ∧ invertedIndex b0 = [] ∧ fieldTermFrequencies b0 = []
        ∧ fieldLengths b0 = [] ∧ documentCount b0 = 0 ∧ termIndex b0 = 0
        ∧ ∀ docs, config docs default_Builder
                  = (ds ← iterate docs;
                     foldM (λ this d, doc ← added_doc d; Builder_add this doc) ds b0).
Proof.
  exists {| _ref := "id";
            _fields := [("title", tt); ("excerpt", tt); ("labels", tt)];
            _documents := []; invertedIndex := [];
            fieldTermFrequencies := []; fieldLengths := [];
            pipeline := [trimmer; stopWordFilter; stemmer];
            searchPipeline := [stemmer];
            documentCount := 0; termIndex := 0 |}.
  repeat split.
Qed.

(** What [added_doc] returns when it returns. *)
Lemma added_doc_inv d doc :
  added_doc d = Ok doc →
  ∃ id title excerpt labels joined,
    get d "id" = Ok id ∧ get d "title" = Ok title
    ∧ get d "excerpt" = Ok excerpt ∧ get d "labels" = Ok labels
    ∧ join (or_else labels (VArr [])) " " = Ok joined
    ∧ doc = VObj [ ("id", id);
                   ("title", or_else title (VStr ""));
                   ("excerpt", or_else excerpt (VStr ""));
                   ("labels", VStr joined) ].
Proof.
  unfold added_doc. intros H. bind_inv H. injection H as <-.
  do 5 eexists. repeat (split; [reflexivity|]). split; [eassumption|reflexivity].
Qed.

(** *** The field references of an index *)

Lemma elem_of_concat_map {A B} (f : A → list B) l x :
  x ∈ concat (map f l) ↔ ∃ y, y ∈ l ∧ x ∈ f y.
Proof.
  rewrite list_elem_of_In, in_concat. split.
  - intros (ys & Hys & Hx). apply in_map_iff in Hys as (y & <- & Hy).
    exists y. rewrite !list_elem_of_In. auto.
  - intros (y & Hy & Hx). exists (f y). split.
    + apply in_map_iff. exists y. split; [reflexivity|].
      apply list_elem_of_In, Hy.
    + apply list_elem_of_In, Hx.
Qed.

(** A field reference of [r] occurs among the field references of the
    documents [rs] exactly when [r] is one of them. *)
Lemma fieldRef_elem_of rs r k :
  k ∈ doc_fieldRefs r → (k ∈ concat (map doc_fieldRefs rs) ↔ r ∈ rs).
Proof.
  intros Hk. rewrite elem_of_concat_map. split.
  - intros (r' & Hr' & Hk'). replace r with r'; [exact Hr'|].
    unfold doc_fieldRefs, FieldRef_toString, joiner in *.
    rewrite !elem_of_cons, elem_of_nil in Hk, Hk'.
    destruct Hk as [->|[->|[->|[]]]]; destruct Hk' as [E|[E|[E|[]]]];
      cbv in E; congruence.
  - intros Hr. eauto.
Qed.

Lemma okeys_three {A} (o : obj A) refs r x1 x2 x3 :
  okeys o = concat (map doc_fieldRefs (dedup refs)) →
  okeys (oset (oset (oset o (FieldRef_toString r "title") x1)
                    (FieldRef_toString r "excerpt") x2)
              (FieldRef_toString r "labels") x3)
  = concat (map doc_fieldRefs (dedup (refs ++ [r]))).
Proof.
  intros Ho. rewrite dedup_snoc.
  assert (Hin : ∀ k, k ∈ doc_fieldRefs r → (k ∈ okeys o ↔ r ∈ dedup refs)).
  { intros k Hk. rewrite Ho. apply fieldRef_elem_of, Hk. }
  assert (H1 : FieldRef_toString r "title" ∈ doc_fieldRefs r) by left.
  assert (H2 : FieldRef_toString r "excerpt" ∈ doc_fieldRefs r) by (right; left).
  assert (H3 : FieldRef_toString r "labels" ∈ doc_fieldRefs r) by (do 2 right; left).
  destruct (decide (r ∈ dedup refs)) as [Hr|Hr].
  - rewrite !okeys_oset.
    rewrite (decide_True (P := _ ∈ okeys o)) by (apply Hin; assumption).
    rewrite (decide_True (P := _ ∈ okeys o)) by (apply Hin; assumption).
    rewrite (decide_True (P := _ ∈ okeys o)) by (apply Hin; assumption).
    exact Ho.
  - rewrite !okeys_oset.
    rewrite (decide_False (P := FieldRef_toString r "title" ∈ okeys o))
      by (rewrite Hin; assumption).
    rewrite (decide_False (P := FieldRef_toString r "excerpt" ∈ _)).
    2: { rewrite elem_of_app, Hin by assumption. intros [?|Hx]; [contradiction|].
         apply list_elem_of_singleton in Hx. discriminate Hx. }
    rewrite (decide_False (P := FieldRef_toString r "labels" ∈ _)).
    2: { rewrite !elem_of_app, Hin by assumption.
         intros [[?|Hx]|Hx]; [contradiction| |];
           apply list_elem_of_singleton in Hx; discriminate Hx. }
    rewrite Ho, map_app, concat_app. simpl. rewrite <- !app_assoc. reflexivity.
Qed.

Lemma okeys_createFieldVectors b :
  okeys (createFieldVectors b) = okeys (fieldTermFrequencies b).
Proof.
  unfold createFieldVectors, okeys. rewrite map_map. apply map_ext.
  intros [k tfs]. destruct (fieldLengthStats _ _). reflexivity.
Qed.

Lemma docRef_of_fieldRefs rs :
  map FieldRef_docRef (concat (map doc_fieldRefs rs))
  = concat (map (λ r : string, [r; r; r]) rs).
Proof.
  induction rs as [|r rs IH]; [reflexivity|].
  simpl. rewrite IH. reflexivity.
Qed.

(** One turn of the loop on a configured builder: the document's
    reference is computed, its three field references are entered, and
    the document is counted. *)
Lemma loop_step_inv b d b' :
  configured b →
  (doc ← added_doc d; Builder_add b doc) = Ok b' →
  ∃ doc r b1 b2,
    added_doc d = Ok doc ∧ doc_ref d = Ok r
    ∧ add_field doc r (counted b r) "title" = Ok b1
    ∧ add_field doc r b1 "excerpt" = Ok b2
    ∧ add_field doc r b2 "labels" = Ok b'
    ∧ configured b'.
Proof.
  intros Hc H.
  destruct (added_doc d) as [doc|] eqn:Ed; [|discriminate]. simpl in H.
  pose proof (Builder_add_keeps_configured b doc b' Hc H) as Hc'.
  rewrite (Builder_add_configured b doc Hc) in H.
  destruct (added_doc_inv d doc Ed)
    as (id & title & excerpt & labels & joined & Hid & _ & _ & _ & _ & ->).
  change (get (VObj _) "id") with (Ok id) in H. simpl in H.
  destruct (toString id) as [r|] eqn:Er; [|discriminate]. simpl in H.
  bind_inv H.
  eexists _, r, _, _. split; [reflexivity|]. split.
  { unfold doc_ref. rewrite Hid. simpl. exact Er. }
  split; [eassumption|]. split; [eassumption|]. split; [exact H|exact Hc'].
Qed.

Lemma loop_fieldRefs b0 ds b :
  configured b0 → fieldTermFrequencies b0 = [] → documentCount b0 = 0 →
  foldM (λ this d, doc ← added_doc d; Builder_add this doc) ds b0 = Ok b →
  configured b
  ∧ ∃ refs, mapM doc_ref ds = Ok refs
            ∧ okeys (fieldTermFrequencies b) = concat (map doc_fieldRefs (dedup refs))
            ∧ documentCount b = length ds.
Proof.
  intros Hc Hf Hn H.
  apply (foldM_invariant _
           (λ b seen, configured b
                      ∧ ∃ refs, mapM doc_ref seen = Ok refs
                                ∧ okeys (fieldTermFrequencies b)
                                  = concat (map doc_fieldRefs (dedup refs))
                                ∧ documentCount b = length seen)
           ) with (seen := []) in H; [exact H| |].
  - clear. intros s seen x s' (Hc & refs & Hrefs & Hkeys & Hcount) Hstep.
    apply loop_step_inv in Hstep
      as (doc & r & b1 & b2 & _ & Hr & H1 & H2 & H3 & Hc'); [|exact Hc].
    split; [exact Hc'|]. exists (refs ++ [r]).
    apply add_field_inv in H1
      as (? & ? & _ & _ & _ & _ & F1 & _ & _ & _ & _ & _ & _ & N1).
    apply add_field_inv in H2
      as (? & ? & _ & _ & _ & _ & F2 & _ & _ & _ & _ & _ & _ & N2).
    apply add_field_inv in H3
      as (? & ? & _ & _ & _ & _ & F3 & _ & _ & _ & _ & _ & _ & N3).
    split; [apply mapM_snoc; assumption|]. split.
    + rewrite F3, F2, F1. apply okeys_three. exact Hkeys.
    + rewrite N3, N2, N1. simpl. rewrite Hcount, length_app. simpl. lia.
  - split; [exact Hc|]. exists []. rewrite Hf, Hn. repeat split.
Qed.

(** The references of a built index are the references of the documents
    in input order, each once. *)
Lemma build_index_references docs idx :
  build_index (VArr docs) = Ok idx →
  ∃ refs, mapM doc_ref docs = Ok refs ∧ references idx = dedup refs.
Proof.
  unfold build_index, lunr. intros H.
  destruct config_loop as (b0 & Hc & _ & Hf & _ & Hn & _ & Hloop).
  rewrite Hloop in H. simpl in H.
  destruct (foldM _ docs b0) as [b|] eqn:E; [|discriminate]. simpl in H.
  injection H as <-.
  apply loop_fieldRefs in E as (_ & refs & Hrefs & Hkeys & _); [|assumption..].
  exists refs. split; [exact Hrefs|].
  unfold references. cbn [fieldVectors build].
  rewrite okeys_createFieldVectors, Hkeys, docRef_of_fieldRefs, dedup_thrice.
  apply dedup_dedup.
Qed.





(** *** Documents of the data model are indexed without error *)

Lemma mapM_join_strings l :
  forallb is_string l = true → mapM join_elem l = Ok (map text_of l).
Proof.
  induction l as [|x l IH]; simpl; [reflexivity|].
  intros H. apply andb_prop in H as (Hx & Hl).
  destruct x; try discriminate. rewrite (IH Hl). reflexivity.
Qed.

Lemma or_else_text x :
  string_or_missing x = true → or_else x (VStr "") = VStr (text_of x).
Proof.
  destruct x; try discriminate; intros _; [reflexivity|].
  unfold or_else. simpl. destruct (String.eqb s "") eqn:E; [|reflexivity].
  apply String.eqb_eq in E. subst. reflexivity.
Qed.

Lemma join_labels x :
  labels_or_missing x = true →
  join (or_else x (VArr [])) " " = Ok (String.concat " " (labels_of x)).
Proof.
  destruct x; try discriminate; intros H; [reflexivity|].
  simpl in H. unfold or_else, join, Array_join. simpl.
  rewrite (mapM_join_strings _ H). reflexivity.
Qed.

(** What is handed to [this.add] for a document of the data model. *)
Lemma added_doc_document props :
  is_document (VObj props) = true →
  added_doc (VObj props)
  = Ok (VObj [ ("id", default VUndefined (own props "id"));
               ("title", VStr (text_of (default VUndefined (own props "title"))));
               ("excerpt", VStr (text_of (default VUndefined (own props "excerpt"))));
               ("labels", VStr (String.concat " "
                                  (labels_of (default VUndefined (own props "labels"))))) ]).
Proof.
  unfold is_document. intros H.
  apply andb_prop in H as (H & Hl). apply andb_prop in H as (H & He).
  apply andb_prop in H as (Hi & Ht).
  unfold added_doc. simpl.
  rewrite (join_labels _ Hl). simpl.
  rewrite (or_else_text _ Ht), (or_else_text _ He). reflexivity.
Qed.

Lemma field_terms_string stack s :
  field_terms stack (VStr s) = Ok (Pipeline_run stack (slices "" (toLowerCase s))).
Proof. reflexivity. Qed.

(** A document whose fields are strings is added without error. *)
Lemma Builder_add_flat b id r t e j :
  configured b → toString id = Ok r →
  ∃ b', Builder_add b (VObj [("id", id); ("title", VStr t);
                             ("excerpt", VStr e); ("labels", VStr j)]) = Ok b'
        ∧ configured b'.
Proof.
  intros Hc Hr.
  assert (∀ b0 f s, get (VObj [("id", id); ("title", VStr t);
                               ("excerpt", VStr e); ("labels", VStr j)]) f = Ok (VStr s) →
                    ∃ b1, add_field (VObj [("id", id); ("title", VStr t);
                                           ("excerpt", VStr e); ("labels", VStr j)])
                                    r b0 f = Ok b1) as Hf.
  { intros b0 f s Hg. apply is_Ok_true.
    eapply add_field_ok; [exact Hg|apply field_terms_string]. }
  assert (∃ b', Builder_add b (VObj [("id", id); ("title", VStr t);
                                     ("excerpt", VStr e); ("labels", VStr j)]) = Ok b')
    as (b' & Hb').
  { rewrite (Builder_add_configured _ _ Hc).
    change (get (VObj _) "id") with (Ok id). simpl. rewrite Hr. simpl.
    destruct (Hf (counted b r) "title" t eq_refl) as (b1 & ->). simpl.
    destruct (Hf b1 "excerpt" e eq_refl) as (b2 & ->). simpl.
    destruct (Hf b2 "labels" j eq_refl) as (b3 & ->). eauto. }
  exists b'. split; [exact Hb'|].
  eapply Builder_add_keeps_configured; eassumption.
Qed.

Lemma toString_id x :
  string_or_missing x = true →
  toString x = Ok (match x with VStr s => s | _ => "undefined" end).
Proof. destruct x; try discriminate; reflexivity. Qed.

(** The build succeeds on every list of documents of the data model. *)
Lemma build_index_total docs :
  Forall (λ d, is_document d = true) docs →
  ∃ idx, build_index (VArr docs) = Ok idx.
Proof.
  intros Hdocs. unfold build_index, lunr.
  destruct config_loop as (b0 & Hc & _ & _ & _ & _ & _ & Hloop).
  rewrite Hloop. simpl.
  destruct (foldM_total (λ this d, doc ← added_doc d; Builder_add this doc)
              configured (λ d, is_document d = true)) with (l := docs) (s := b0)
    as (b & -> & _); [|assumption..|simpl; eauto].
  intros s d Hs Hd. destruct d; try discriminate.
  rewrite (added_doc_document _ Hd). simpl.
  unfold is_document in Hd. apply andb_prop in Hd as (Hd & _).
  apply andb_prop in Hd as (Hd & _). apply andb_prop in Hd as (Hi & _).
  eapply Builder_add_flat; [exact Hs|]. apply toString_id, Hi.
Qed.



(** C8.  Whatever the documents, the builder the script configures has
    [id] as its reference key and exactly the fields [title], [excerpt]
    and [labels].  For a document of the list, what is added under the
    document's reference is its title as it is, its excerpt as it is,
    and its labels joined by single spaces; and the builder then holds
    the three field references of that document. *)
Theorem three_fields_under_id (docs : list value) (b : Builder) (d : value) :
  config (VArr docs) default_Builder = Ok b →
  d ∈ docs → is_document d = true →
  _ref b = "id"
  ∧ okeys (_fields b) = ["title"; "excerpt"; "labels"]
  ∧ ∃ id title excerpt labels r,
      get d "id" = Ok id ∧ get d "title" = Ok title
      ∧ get d "excerpt" = Ok excerpt ∧ get d "labels" = Ok labels
      ∧ added_doc d
        = Ok (VObj [ ("id", id);
                     ("title", VStr (text_of title));
                     ("excerpt", VStr (text_of excerpt));
                     ("labels", VStr (String.concat " " (labels_of labels))) ])
      ∧ doc_ref d = Ok r
      ∧ ∀ field, field ∈ okeys (_fields b) →
                 FieldRef_toString r field ∈ okeys (fieldTermFrequencies b).
Proof.
  intros H Hd Hdoc.
  destruct config_loop as (b0 & Hc & _ & Hf & _ & Hn & _ & Hloop).
  rewrite Hloop in H. simpl in H.
  apply loop_fieldRefs in H as (Hc' & refs & Hrefs & Hkeys & _); [|assumption..].
  destruct Hc' as (Href & Hfields & _).
  split; [exact Href|]. split; [exact Hfields|].
  destruct (mapM_elem_of _ _ _ _ Hrefs Hd) as (r & Hr & Hin).
  destruct d as [| | | | | |props]; try discriminate.
  do 4 eexists. exists r. repeat (split; [reflexivity|]).
  split; [apply added_doc_document, Hdoc|]. split; [exact Hr|].
  intros field Hfield. rewrite Hkeys, Hfields in *.
  apply fieldRef_elem_of with (r := r); [|apply elem_of_dedup, Hin].
  unfold doc_fieldRefs. rewrite !elem_of_cons, elem_of_nil in Hfield.
  destruct Hfield as [->|[->|[->|[]]]]; [left|right; left|do 2 right; left].
Qed.

Lemma three_fields_under_id_witness :
  _ref (builder_of (VArr [issue_42_full])) = "id"
  ∧ okeys (_fields (builder_of (VArr [issue_42_full]))) = ["title"; "excerpt"; "labels"]
  ∧ ∃ id title excerpt labels r,
      get issue_42_full "id" = Ok id ∧ get issue_42_full "title" = Ok title
      ∧ get issue_42_full "excerpt" = Ok excerpt
      ∧ get issue_42_full "labels" = Ok labels
      ∧ added_doc issue_42_full
        = Ok (VObj [ ("id", id);
                     ("title", VStr (text_of title));
                     ("excerpt", VStr (text_of excerpt));
                     ("labels", VStr (String.concat " " (labels_of labels))) ])
      ∧ doc_ref issue_42_full = Ok r
      ∧ ∀ field, field ∈ okeys (_fields (builder_of (VArr [issue_42_full]))) →
                 FieldRef_toString r field
                 ∈ okeys (fieldTermFrequencies (builder_of (VArr [issue_42_full]))).
Proof.
  apply (three_fields_under_id [issue_42_full] (builder_of (VArr [issue_42_full]))
           issue_42_full).
  - apply config_builder_of. vm_compute. reflexivity.
  - left.
  - reflexivity.
Defined.

(** C9.  A document without an [id] is not rejected: on a list of
    documents of the data model the build completes, the document is
    handed to the builder with [undefined] as its id, and the index
    refers to it under the key that [undefined] converts to, the string
    [undefined]. *)
Theorem missing_id_undefined_reference (docs : list value) (d : value) :
  Forall (λ d, is_document d = true) docs →
  d ∈ docs → get d "id" = Ok VUndefined →
  ∃ idx doc,
    build_index (VArr docs) = Ok idx
    ∧ added_doc d = Ok doc
    ∧ get doc "id" = Ok VUndefined
    ∧ doc_ref d = Ok "undefined"
    ∧ "undefined" ∈ references idx.
Proof.
  intros Hdocs Hd Hid.
  destruct (build_index_total docs Hdocs) as (idx & Hidx).
  rewrite Forall_forall in Hdocs. specialize (Hdocs d Hd).
  assert (doc_ref d = Ok "undefined") as Hr.
  { unfold doc_ref. rewrite Hid. reflexivity. }
  destruct d as [| | | | | |props]; try discriminate.
  exists idx. eexists. split; [exact Hidx|].
  split; [apply added_doc_document, Hdocs|].
  split; [simpl in *; exact Hid|]. split; [exact Hr|].
  destruct (build_index_references docs idx Hidx) as (refs & Hrefs & ->).
  destruct (mapM_elem_of _ _ _ _ Hrefs Hd) as (r & Hr' & Hin).
  rewrite Hr in Hr'. injection Hr' as <-. apply elem_of_dedup, Hin.
Qed.

Lemma missing_id_undefined_reference_witness :
  ∃ idx doc,
    build_index (VArr [issue_42; no_id_doc]) = Ok idx
    ∧ added_doc no_id_doc = Ok doc
    ∧ get doc "id" = Ok VUndefined
    ∧ doc_ref no_id_doc = Ok "undefined"
    ∧ "undefined" ∈ references idx.
Proof.
  apply (missing_id_undefined_reference [issue_42; no_id_doc] no_id_doc).
  - repeat constructor.
  - right. left.
  - reflexivity.
Defined.

(** *** What the inverted index depends on *)

Lemma foldM_app {A S} (f : S → A → result S) l1 l2 s :
  foldM f (l1 ++ l2) s = (s1 ← foldM f l1 s; foldM f l2 s1).
Proof.
  revert s. induction l1 as [|x l1 IH]; intros s; simpl; [reflexivity|].
  destruct (f s x); simpl; [apply IH|reflexivity].
Qed.

Lemma Pipeline_run_nil stack : Pipeline_run stack [] = [].
Proof. unfold Pipeline_run. induction stack; simpl; auto. Qed.

Lemma field_terms_empty stack : field_terms stack (VStr "") = Ok [].
Proof. rewrite field_terms_string. simpl. rewrite Pipeline_run_nil. reflexivity. Qed.

Lemma same_postings_refl b : same_postings b b.
Proof. repeat split. Qed.

Lemma same_postings_sym b1 b2 : same_postings b1 b2 → same_postings b2 b1.
Proof. intros (?&?&?&?&?&?). repeat split; congruence. Qed.

Lemma same_postings_trans b1 b2 b3 :
  same_postings b1 b2 → same_postings b2 b3 → same_postings b1 b3.
Proof. intros (?&?&?&?&?&?) (?&?&?&?&?&?). repeat split; congruence. Qed.

Lemma same_postings_counted b r : same_postings (counted b r) b.
Proof. repeat split. Qed.

(** A field step does to the inverted index what it does from any other
    builder with the same postings. *)
Lemma add_field_sim doc r b1 b2 f b1' :
  same_postings b1 b2 →
  add_field doc r b1 f = Ok b1' →
  ∃ b2', add_field doc r b2 f = Ok b2' ∧ same_postings b1' b2'.
Proof.
  intros (Hr & Hf & Hp & Hs & Hi & Ht) H.
  apply add_field_inv in H
    as (field & terms & Hg & Hterms & I1 & T1 & _ & _ & R1 & F1 & _ & P1 & S1 & _).
  destruct (is_Ok_true (add_field doc r b2 f)) as (b2' & H2).
  { eapply add_field_ok; [exact Hg|]. rewrite <- Hp. exact Hterms. }
  exists b2'. split; [exact H2|].
  apply add_field_inv in H2
    as (field' & terms' & Hg' & Hterms' & I2 & T2 & _ & _ & R2 & F2 & _ & P2 & S2 & _).
  rewrite Hg in Hg'. injection Hg' as <-.
  rewrite <- Hp, Hterms in Hterms'. injection Hterms' as <-.
  unfold same_postings.
  rewrite R1, R2, F1, F2, P1, P2, S1, S2, I1, I2, T1, T2, Hf, Hi, Ht.
  repeat split; assumption.
Qed.

Lemma add_fields_sim doc r fields b1 b2 b1' :
  same_postings b1 b2 →
  foldM (add_field doc r) fields b1 = Ok b1' →
  ∃ b2', foldM (add_field doc r) fields b2 = Ok b2' ∧ same_postings b1' b2'.
Proof.
  revert b1 b2. induction fields as [|f fields IH]; simpl; intros b1 b2 Hs H.
  - injection H as <-. eauto.
  - destruct (add_field doc r b1 f) as [c1|] eqn:E; [|discriminate]. simpl in H.
    destruct (add_field_sim _ _ _ _ _ _ Hs E) as (c2 & -> & Hc). simpl.
    eapply IH; eassumption.
Qed.

Lemma Builder_add_sim doc b1 b2 b1' :
  same_postings b1 b2 →
  Builder_add b1 doc = Ok b1' →
  ∃ b2', Builder_add b2 doc = Ok b2' ∧ same_postings b1' b2'.
Proof.
  intros Hs H. unfold Builder_add in *.
  pose proof Hs as (Hr & Hf & _). rewrite <- Hr.
  destruct (get doc (_ref b1)) as [ref|]; [|discriminate]. simpl in *.
  destruct (toString ref) as [r|]; [|discriminate]. simpl in *.
  change (_fields (counted b2 r)) with (_fields b2).
  change (_fields (counted b1 r)) with (_fields b1) in H. rewrite <- Hf.
  eapply add_fields_sim; [|exact H].
  eapply same_postings_trans; [apply same_postings_counted|].
  eapply same_postings_trans; [exact Hs|].
  apply same_postings_sym, same_postings_counted.
Qed.

Lemma loop_sim ds b1 b2 b1' :
  same_postings b1 b2 →
  foldM (λ this d, doc ← added_doc d; Builder_add this doc) ds b1 = Ok b1' →
  ∃ b2', foldM (λ this d, doc ← added_doc d; Builder_add this doc) ds b2 = Ok b2'
         ∧ same_postings b1' b2'.
Proof.
  revert b1 b2. induction ds as [|d ds IH]; simpl; intros b1 b2 Hs H.
  - injection H as <-. eauto.
  - destruct (added_doc d) as [doc|]; [|discriminate]. simpl in *.
    destruct (Builder_add b1 doc) as [c1|] eqn:E; [|discriminate]. simpl in H.
    destruct (Builder_add_sim _ _ _ _ Hs E) as (c2 & -> & Hc). simpl.
    eapply IH; eassumption.
Qed.

Lemma loop_configured ds b0 b :
  configured b0 →
  foldM (λ this d, doc ← added_doc d; Builder_add this doc) ds b0 = Ok b →
  configured b.
Proof.
  intros Hc H.
  apply (foldM_invariant _ (λ b _, configured b)) with (seen := []) in H;
    [exact H| |exact Hc].
  clear. intros s seen x s' Hs Hstep.
  apply loop_step_inv in Hstep as (? & ? & ? & ? & _ & _ & _ & _ & _ & Hc'); assumption.
Qed.

(** A field without terms leaves the inverted index and the term
    counter alone. *)
Lemma add_field_no_terms doc r b f b' :
  get doc f = Ok (VStr "") →
  add_field doc r b f = Ok b' → same_postings b' b.
Proof.
  intros Hg H.
  apply add_field_inv in H
    as (field & terms & Hg' & Hterms & I1 & T1 & _ & _ & R1 & F1 & _ & P1 & S1 & _).
  rewrite Hg in Hg'. injection Hg' as <-.
  rewrite field_terms_empty in Hterms. injection Hterms as <-.
  simpl in I1, T1. repeat split; assumption.
Qed.

(** What is handed to [this.add] for a document without text. *)
Lemma added_doc_no_text d :
  is_document d = true → no_text d = true →
  ∃ id, get d "id" = Ok id
        ∧ added_doc d = Ok (VObj [ ("id", id); ("title", VStr "");
                                   ("excerpt", VStr ""); ("labels", VStr "") ]).
Proof.
  intros Hd Hn. destruct d as [| | | | | |props]; try discriminate.
  rewrite (added_doc_document _ Hd). unfold no_text in Hn.
  apply andb_prop in Hn as (Hn & Hl). apply andb_prop in Hn as (Ht & He).
  apply String.eqb_eq in Ht, He. rewrite Ht, He.
  destruct (labels_of _); [|discriminate]. eexists. split; reflexivity.
Qed.

(** One turn of the loop on a document without text keeps the
    postings. *)
Lemma loop_step_no_text b d b' :
  configured b → is_document d = true → no_text d = true →
  (doc ← added_doc d; Builder_add b doc) = Ok b' → same_postings b' b.
Proof.
  intros Hc Hd Hn H.
  destruct (added_doc_no_text d Hd Hn) as (id & _ & Hdoc).
  apply loop_step_inv in H as (doc & r & b1 & b2 & Hdoc' & _ & H1 & H2 & H3 & _);
    [|exact Hc].
  rewrite Hdoc in Hdoc'. injection Hdoc' as <-.
  apply add_field_no_terms in H1, H2, H3; try reflexivity.
  eapply same_postings_trans; [exact H3|].
  eapply same_postings_trans; [exact H2|].
  eapply same_postings_trans; [exact H1|]. apply same_postings_counted.
Qed.

(** C4.  A document of the data model whose title, excerpt and labels
    are all empty (or missing) is still referred to by the built index,
    which holds a field vector for each of its three fields; and the
    inverted index is the one the other documents alone would give: the
    document adds no posting to any term. *)
Theorem empty_document_no_postings (pre post : list value) (d : value) (idx : Index) :
  is_document d = true → no_text d = true →
  build_index (VArr (pre ++ d :: post)) = Ok idx →
  (∃ r, doc_ref d = Ok r
        ∧ r ∈ references idx
        ∧ ∀ field, field ∈ fields idx →
                   FieldRef_toString r field ∈ okeys (fieldVectors idx))
  ∧ ∃ idx', build_index (VArr (pre ++ post)) = Ok idx'
            ∧ idx_invertedIndex idx' = idx_invertedIndex idx.
Proof.
  intros Hd Hn H. split.
  - destruct (build_index_references _ _ H) as (refs & Hrefs & Hidx).
    assert (d ∈ pre ++ d :: post) as Hin by (apply elem_of_app; right; left).
    destruct (mapM_elem_of _ _ _ _ Hrefs Hin) as (r & Hr & Hrin).
    exists r. split; [exact Hr|]. split; [rewrite Hidx; apply elem_of_dedup, Hrin|].
    unfold build_index, lunr in H.
    destruct config_loop as (b0 & Hc & _ & Hf & _ & Hcount & _ & Hloop).
    rewrite Hloop in H. simpl in H.
    destruct (foldM _ _ b0) as [b|] eqn:E; [|discriminate]. injection H as <-.
    apply loop_fieldRefs in E as (Hc' & refs' & Hrefs' & Hkeys & _); [|assumption..].
    rewrite Hrefs in Hrefs'. injection Hrefs' as <-.
    destruct Hc' as (_ & Hfields & _).
    intros field Hfield. cbn [fields fieldVectors build] in *.
    rewrite okeys_createFieldVectors, Hkeys. rewrite Hfields in Hfield.
    apply fieldRef_elem_of with (r := r); [|apply elem_of_dedup, Hrin].
    unfold doc_fieldRefs. rewrite !elem_of_cons, elem_of_nil in Hfield.
    destruct Hfield as [->|[->|[->|[]]]]; [left|right; left|do 2 right; left].
  - unfold build_index, lunr in *.
    destruct config_loop as (b0 & Hc & _ & _ & _ & _ & _ & Hloop).
    rewrite Hloop in *. simpl in *.
    destruct (foldM _ (pre ++ d :: post) b0) as [b|] eqn:E; [|discriminate].
    injection H as <-.
    rewrite foldM_app in E.
    destruct (foldM _ pre b0) as [bp|] eqn:Ep; [|discriminate]. simpl in E.
    destruct (added_doc d ≫= Builder_add bp) as [bd|] eqn:Ed; [|discriminate].
    simpl in E.
    pose proof (loop_configured _ _ _ Hc Ep) as Hcp.
    pose proof (loop_step_no_text _ _ _ Hcp Hd Hn Ed) as Hs.
    destruct (loop_sim _ _ _ _ Hs E) as (b' & Hb' & Hsame).
    exists (build b'). rewrite foldM_app, Ep. simpl. rewrite Hb'. simpl.
    split; [reflexivity|]. destruct Hsame as (_ & _ & _ & _ & Hi & _).
    symmetry. exact Hi.
Qed.

Lemma empty_document_no_postings_witness :
  (∃ r, doc_ref empty_doc = Ok r
        ∧ r ∈ references (index_of (VArr ([issue_42] ++ empty_doc :: [agreed_doc])))
        ∧ ∀ field,
            field ∈ fields (index_of (VArr ([issue_42] ++ empty_doc :: [agreed_doc]))) →
            FieldRef_toString r field
            ∈ okeys (fieldVectors (index_of (VArr ([issue_42] ++ empty_doc :: [agreed_doc])))))
  ∧ ∃ idx', build_index (VArr ([issue_42] ++ [agreed_doc])) = Ok idx'
            ∧ idx_invertedIndex idx'
              = idx_invertedIndex (index_of (VArr ([issue_42] ++ empty_doc :: [agreed_doc]))).
Proof.
  apply (empty_document_no_postings [issue_42] [agreed_doc] empty_doc).
  - reflexivity.
  - reflexivity.
  - apply build_index_index_of. vm_compute. reflexivity.
Defined.

(** *** Postings *)

(** The step for a term enters its posting. *)
Lemma add_term_enters fields f r st t :
  has_posting (add_term fields f r st t).1.2 t f r.
Proof.
  destruct st as [[ft inv] cnt]. unfold add_term. cbn [fst snd].
  eexists _, _. split; [apply own_oset_eq|]. cbn [byField].
  split; [apply own_oset_eq|].
  destruct (own (default [] _) r) eqn:E; [eauto|].
  rewrite own_oset_eq. eauto.
Qed.

(** The step for a term keeps the postings that are there. *)
Lemma add_term_keeps fields f' r' st t' t f r :
  has_posting st.1.2 t f r →
  has_posting (add_term fields f' r' st t').1.2 t f r.
Proof.
  destruct st as [[ft inv] cnt]. cbn [fst snd].
  intros (p & docs & Hp & Hdocs & Hr). unfold add_term. cbn [fst snd].
  destruct (decide (t' = t)) as [->|Hne].
  - rewrite Hp. destruct (decide (f' = f)) as [->|Hnf].
    + eexists _, _. split; [apply own_oset_eq|]. cbn [byField].
      split; [apply own_oset_eq|]. rewrite Hdocs. cbn [from_option id].
      destruct (own docs r') eqn:E; [exact Hr|].
      destruct (decide (r' = r)) as [->|Hnr].
      * rewrite own_oset_eq. eauto.
      * rewrite own_oset_ne by exact Hnr. exact Hr.
    + eexists _, docs. split; [apply own_oset_eq|]. cbn [byField].
      split; [rewrite own_oset_ne by exact Hnf; exact Hdocs|exact Hr].
  - exists p, docs. split; [|split; assumption].
    rewrite own_oset_ne by exact Hne. exact Hp.
Qed.

Lemma add_terms_keep fields f' r' terms st t f r :
  has_posting st.1.2 t f r →
  has_posting (fold_left (add_term fields f' r') terms st).1.2 t f r.
Proof.
  revert st. induction terms as [|t' terms IH]; intros st H; [exact H|].
  simpl. apply IH, add_term_keeps, H.
Qed.

Lemma add_terms_enter fields f r terms st t :
  t ∈ terms →
  has_posting (fold_left (add_term fields f r) terms st).1.2 t f r.
Proof.
  revert st. induction terms as [|t' terms IH]; intros st H; [inversion H|].
  simpl. inversion H; subst.
  - apply add_terms_keep, add_term_enters.
  - apply IH. assumption.
Qed.

Lemma add_field_keeps doc r' b f' b' t f r :
  add_field doc r' b f' = Ok b' →
  has_posting (invertedIndex b) t f r → has_posting (invertedIndex b') t f r.
Proof.
  intros H Hp.
  apply add_field_inv in H as (field & terms & _ & _ & -> & _).
  apply add_terms_keep. exact Hp.
Qed.

Lemma add_field_enters doc r b f b' field terms t :
  add_field doc r b f = Ok b' →
  get doc f = Ok field → field_terms (pipeline b) field = Ok terms → t ∈ terms →
  has_posting (invertedIndex b') t f r.
Proof.
  intros H Hg Ht Hin.
  apply add_field_inv in H as (field' & terms' & Hg' & Ht' & -> & _).
  rewrite Hg in Hg'. injection Hg' as <-. rewrite Ht in Ht'. injection Ht' as <-.
  apply add_terms_enter. exact Hin.
Qed.

(** One turn of the loop keeps the postings and enters those of the
    document's title. *)
Lemma loop_step_postings b d b' :
  configured b →
  (doc ← added_doc d; Builder_add b doc) = Ok b' →
  (∀ t f r, has_posting (invertedIndex b) t f r → has_posting (invertedIndex b') t f r)
  ∧ (∀ doc r title terms t,
       added_doc d = Ok doc → doc_ref d = Ok r →
       get doc "title" = Ok title →
       field_terms [trimmer; stopWordFilter; stemmer] title = Ok terms →
       t ∈ terms → has_posting (invertedIndex b') t "title" r).
Proof.
  intros Hc H.
  apply loop_step_inv in H as (doc & r & b1 & b2 & Hdoc & Hr & H1 & H2 & H3 & _);
    [|exact Hc].
  split.
  - intros t f r0 Hp.
    eapply add_field_keeps; [exact H3|].
    eapply add_field_keeps; [exact H2|].
    eapply add_field_keeps; [exact H1|]. exact Hp.
  - intros doc' r' title terms t Hdoc' Hr' Hg Ht Hin.
    rewrite Hdoc in Hdoc'. injection Hdoc' as <-.
    rewrite Hr in Hr'. injection Hr' as <-.
    eapply add_field_keeps; [exact H3|].
    eapply add_field_keeps; [exact H2|].
    eapply add_field_enters; [exact H1|exact Hg| |exact Hin].
    destruct Hc as (_ & _ & Hp & _).
    change (pipeline (counted b r)) with (pipeline b). rewrite Hp. exact Ht.
Qed.

Lemma loop_postings ds b0 b :
  configured b0 →
  foldM (λ this d, doc ← added_doc d; Builder_add this doc) ds b0 = Ok b →
  ∀ d doc r title terms t,
    d ∈ ds → added_doc d = Ok doc → doc_ref d = Ok r →
    get doc "title" = Ok title →
    field_terms [trimmer; stopWordFilter; stemmer] title = Ok terms →
    t ∈ terms → has_posting (invertedIndex b) t "title" r.
Proof.
  intros Hc H.
  apply (foldM_invariant _
           (λ b seen,
              configured b
              ∧ ∀ d doc r title terms t,
                  d ∈ seen → added_doc d = Ok doc → doc_ref d = Ok r →
                  get doc "title" = Ok title →
                  field_terms [trimmer; stopWordFilter; stemmer] title = Ok terms →
                  t ∈ terms → has_posting (invertedIndex b) t "title" r))
    with (seen := []) in H; [exact (proj2 H)| |].
  - clear. intros s seen x s' (Hc & IH) Hstep.
    pose proof (loop_configured [x] s s' Hc) as Hc'.
    simpl in Hc'. rewrite Hstep in Hc'. specialize (Hc' eq_refl).
    split; [exact Hc'|].
    destruct (loop_step_postings _ _ _ Hc Hstep) as (Hkeep & Henter).
    intros d doc r title terms t Hd. apply elem_of_app in Hd as [Hd|Hd].
    + intros. eapply Hkeep, IH; eassumption.
    + apply list_elem_of_singleton in Hd. subst d. apply Henter.
  - split; [exact Hc|]. intros d doc r title terms t Hd. inversion Hd.
Qed.

(** The documents a term leads to include those of its postings. *)
Lemma term_documents_posting idx t f r :
  f ∈ fields idx → has_posting (idx_invertedIndex idx) t f r →
  r ∈ term_documents idx t.
Proof.
  intros Hf (p & docs & Hp & Hdocs & Hr). unfold term_documents. rewrite Hp.
  apply elem_of_dedup, elem_of_concat_map. exists f. split; [exact Hf|].
  rewrite Hdocs. apply own_Some_keys, Hr.
Qed.

Lemma search_plain idx q :
  idx_pipeline idx = [stemmer] → plain_term q = true →
  search idx q
  = Some (dedup (concat (map (term_documents idx) [porterStemmer (toLowerCase q)]))).
Proof. unfold search. intros -> ->. reflexivity. Qed.

(** *** Searching the built index *)

(** C5 (as amended).  The search pipeline stems the query as the
    indexing pipeline stemmed the title.  For a document of the input
    and a query that is one plain term, if the lower-cased and stemmed
    query is one of the terms indexed from the document's title, then
    the search returns the document's reference.  A query that is itself
    a stemmed token is found when the stemmer leaves it unchanged. *)
Theorem title_term_query (docs : list value) (idx : Index) (d doc title : value)
    (terms : list string) (q r : string) :
  build_index (VArr docs) = Ok idx →
  d ∈ docs → added_doc d = Ok doc → doc_ref d = Ok r →
  get doc "title" = Ok title →
  field_terms [trimmer; stopWordFilter; stemmer] title = Ok terms →
  plain_term q = true →
  porterStemmer (toLowerCase q) ∈ terms →
  ∃ results, search idx q = Some results ∧ r ∈ results.
Proof.
  intros H Hd Hdoc Hr Htitle Hterms Hq Hin.
  unfold build_index, lunr in H.
  destruct config_loop as (b0 & Hc & _ & _ & _ & _ & _ & Hloop).
  rewrite Hloop in H. simpl in H.
  destruct (foldM _ docs b0) as [b|] eqn:E; [|discriminate]. injection H as <-.
  pose proof (loop_configured _ _ _ Hc E) as (_ & Hfields & _ & Hsearch).
  pose proof (loop_postings _ _ _ Hc E d doc r title terms _
                Hd Hdoc Hr Htitle Hterms Hin) as Hp.
  eexists. split; [apply search_plain; [exact Hsearch|exact Hq]|].
  apply elem_of_dedup, elem_of_concat_map. eexists. split; [left|].
  apply term_documents_posting with (f := "title"); [|exact Hp].
  cbn [fields build]. rewrite Hfields. left.
Qed.

Lemma title_term_query_witness :
  ∃ results, search (index_of (VArr [issue_42; agreed_doc])) "Agreed" = Some results
             ∧ "issue-7" ∈ results.
Proof.
  apply (title_term_query [issue_42; agreed_doc] (index_of (VArr [issue_42; agreed_doc]))
           agreed_doc
           (VObj [("id", VStr "issue-7"); ("title", VStr "agreed");
                  ("excerpt", VStr ""); ("labels", VStr "")])
           (VStr "agreed") ["agre"] "Agreed" "issue-7").
  - apply build_index_index_of. vm_compute. reflexivity.
  - right. left.
  - reflexivity.
  - reflexivity.
  - reflexivity.
  - vm_compute. reflexivity.
  - reflexivity.
  - vm_compute. left.
Defined.

(** C5, as stated, fails: the only stemmed token of the title [agreed]
    is [agre]; the query [agre] is stemmed once more, to [agr], which is
    no term of the index, and the search returns nothing. *)
Lemma stemmed_token_query_misses :
  ∃ idx, build_index (VArr [agreed_doc]) = Ok idx
         ∧ doc_ref agreed_doc = Ok "issue-7"
         ∧ field_terms [trimmer; stopWordFilter; stemmer] (VStr "agreed") = Ok ["agre"]
         ∧ porterStemmer "agre" = "agr"
         ∧ search idx "agre" = Some [].
Proof.
  exists (index_of (VArr [agreed_doc])).
  split; [apply build_index_index_of; vm_compute; reflexivity|].
  repeat split; vm_compute; reflexivity.
Qed.

(** C6.  For the single document of the example - id [issue-42], title
    [Cannot export PDF], excerpt [export fails silently], labels [bug]
    and [pdf] - the index is built, the query [export] returns
    [issue-42] and nothing else, and the query [nonexistentword] returns
    nothing. *)
Theorem example_queries :
  ∃ idx, build_index (VArr [issue_42]) = Ok idx
         ∧ search idx "export" = Some ["issue-42"]
         ∧ search idx "nonexistentword" = Some [].
Proof.
  exists (index_of (VArr [issue_42])).
  split; [apply build_index_index_of; vm_compute; reflexivity|].
  split; vm_compute; reflexivity.
Qed.

(** *** Instances *)

Lemma input_error_no_output_witness :
  ∃ e, main sample_parse sample_stringify empty_world = (empty_world, Throw e)
       ∧ (e = ENOENT ∨ e = SyntaxError)
       ∧ exit_status (snd (main sample_parse sample_stringify empty_world)) ≠ 0
       ∧ files (fst (main sample_parse sample_stringify empty_world)) !! idxPath
         = files empty_world !! idxPath.
Proof.
  apply (input_error_no_output sample_parse sample_stringify empty_world).
  left. reflexivity.
Defined.

Lemma indexer_idempotent_witness :
  (∃ w2, main sample_parse sample_stringify
              (fst (main sample_parse sample_stringify sample_world)) = (w2, Ok tt)
         ∧ files w2 = files (fst (main sample_parse sample_stringify sample_world)))
  ∧ (∀ w', files w' !! docsPath = files sample_world !! docsPath →
           idxPath ∉ unwritable w' →
           ∃ w2', main sample_parse sample_stringify w' = (w2', Ok tt)
                  ∧ files w2' !! idxPath
                    = files (fst (main sample_parse sample_stringify sample_world))
                        !! idxPath).
Proof.
  apply (indexer_idempotent sample_parse sample_stringify sample_world).
  vm_compute. reflexivity.
Defined.

Lemma index_ignores_other_fields_witness :
  index_json sample_stringify (VArr [issue_42_full])
  = index_json sample_stringify (VArr [issue_42_other]).
Proof.
  apply (index_ignores_other_fields sample_stringify [issue_42_full] [issue_42_other]).
  repeat constructor.
Defined.

(* ================================================================== *)
(** ** Further properties of the script *)
(* ================================================================== *)

(** *** What a run leaves behind *)



(** X2.  A run that ends normally read the input, parsed it and built
    the index; it leaves the serialised index at the output path, every
    other file - the input included - as it was, and exactly one more
    line of output, which gives the length of the parsed list (the
    number of documents read, not the number of references). *)
Theorem success_frame JSON_parse JSON_stringify (w w' : world) :
  main JSON_parse JSON_stringify w = (w', Ok tt) →
  ∃ text docs idx,
    files w !! docsPath = Some text
    ∧ JSON_parse text = Some docs
    ∧ build_index docs = Ok idx
    ∧ files w' = <[idxPath := JSON_stringify idx]> (files w)
    ∧ (∀ path, path ≠ idxPath → files w' !! path = files w !! path)
    ∧ unwritable w' = unwritable w
    ∧ stdout w'
      = stdout w ++ [("Wrote out/github-lunr-index.json ("
                      ++ pretty (length_of docs) ++ " docs)")%string].
Proof.
  intros H. apply main_ok_iff in H as (docs & json & Hs & _ & ->).
  unfold serialized_index, readFileSync, index_json in Hs.
  destruct (files w !! docsPath) as [text|] eqn:Et; [|discriminate]. simpl in Hs.
  destruct (JSON_parse text) as [docs0|] eqn:Ep; [|discriminate]. simpl in Hs.
  destruct (build_index docs0) as [idx|] eqn:Eb; [|discriminate]. simpl in Hs.
  injection Hs as -> <-.
  exists text, docs, idx. repeat (split; [reflexivity || assumption|]).
  split; [|split; reflexivity].
  intros path Hne. simpl. apply lookup_insert_ne. congruence.
Qed.

Lemma success_frame_witness :
  ∃ text docs idx,
    files sample_world !! docsPath = Some text
    ∧ sample_parse text = Some docs
    ∧ build_index docs = Ok idx
    ∧ files (fst (main sample_parse sample_stringify sample_world))
      = <[idxPath := sample_stringify idx]> (files sample_world)
    ∧ (∀ path, path ≠ idxPath →
               files (fst (main sample_parse sample_stringify sample_world)) !! path
               = files sample_world !! path)
    ∧ unwritable (fst (main sample_parse sample_stringify sample_world))
      = unwritable sample_world
    ∧ stdout (fst (main sample_parse sample_stringify sample_world))
      = stdout sample_world ++ [("Wrote out/github-lunr-index.json ("
                                 ++ pretty (length_of docs) ++ " docs)")%string].
Proof.
  apply (success_frame sample_parse sample_stringify sample_world).
  vm_compute. reflexivity.
Defined.

(** *** Documents the script cannot handle *)

Lemma foldM_throws_at {A S} (f : S → A → result S) pre x post s :
  (∀ s', ∃ e, f s' x = Throw e) →
  ∃ e, foldM f (pre ++ x :: post) s = Throw e.
Proof.
  intros Hx. rewrite foldM_app.
  destruct (foldM f pre s) as [s1|e]; simpl; [|eauto].
  destruct (Hx s1) as (e & ->). simpl. eauto.
Qed.

Lemma build_index_throws_at pre d post e :
  added_doc d = Throw e → ∃ e', build_index (VArr (pre ++ d :: post)) = Throw e'.
Proof.
  intros Hd. unfold build_index, lunr.
  destruct config_loop as (b0 & _ & _ & _ & _ & _ & _ & Hloop).
  rewrite Hloop. simpl.
  destruct (foldM_throws_at (λ this d, doc ← added_doc d; Builder_add this doc)
              pre d post b0) as (e' & ->).
  - intros s'. rewrite Hd. simpl. eauto.
  - simpl. eauto.
Qed.

(** X3.  There is no per-document error handling: if the object literal
    of line 17 cannot be evaluated for one document of the list,
    wherever it stands, the whole run ends with an exception and nothing
    is written or printed - the documents before it are not indexed
    either. *)
Theorem bad_document_aborts JSON_parse JSON_stringify (w : world) (text : string)
    (pre post : list value) (d : value) (e : error) :
  files w !! docsPath = Some text →
  JSON_parse text = Some (VArr (pre ++ d :: post)) →
  added_doc d = Throw e →
  ∃ e', main JSON_parse JSON_stringify w = (w, Throw e').
Proof.
  intros Ht Hp Hd.
  destruct (build_index_throws_at pre d post e Hd) as (e' & He').
  exists e'. unfold main, serialized_index, readFileSync, index_json.
  rewrite Ht. simpl. rewrite Hp. simpl. rewrite He'. reflexivity.
Qed.

Lemma bad_document_aborts_witness :
  ∃ e', main bad_parse sample_stringify bad_world = (bad_world, Throw e').
Proof.
  apply (bad_document_aborts bad_parse sample_stringify bad_world bad_text
           [issue_42] [bare_doc] string_labels_doc TypeError).
  - reflexivity.
  - reflexivity.
  - reflexivity.
Defined.

Lemma mapM_is_Ok {A B} (f : A → result B) l :
  is_Ok (mapM f l) = true ↔ Forall (λ x, is_Ok (f x) = true) l.
Proof.
  induction l as [|x l IH]; simpl.
  - split; [constructor|reflexivity].
  - destruct (f x) as [y|] eqn:E; simpl.
    + destruct (mapM f l) as [ys|]; simpl in *.
      * split; [|reflexivity]. intros _. constructor; [rewrite E; reflexivity|].
        apply IH. reflexivity.
      * split; [discriminate|]. intros H. inversion H; subst. apply IH. assumption.
    + split; [discriminate|]. intros H. inversion H; subst.
      rewrite E in *. assumption.
Qed.

(** X4.  The object literal can be evaluated for a document exactly when
    the document is not [null] (so that its properties can be read) and
    its [labels] is either falsy - missing, [null], [false], [0], the
    empty string - or an array whose elements convert to strings.  Any
    other [labels], a string for instance, throws; [title] and [excerpt]
    never do, whatever they hold. *)
Theorem added_doc_ok_iff (d : value) :
  is_Ok (added_doc d) = true ↔
  ∃ labels, get d "labels" = Ok labels
            ∧ (truthy labels = false
               ∨ ∃ l, labels = VArr l
                      ∧ Forall (λ x, is_Ok (join_elem x) = true) l).
Proof.
  assert (∀ labels, is_Ok (join (or_else labels (VArr [])) " ") = true ↔
                    (truthy labels = false
                     ∨ ∃ l, labels = VArr l
                            ∧ Forall (λ x, is_Ok (join_elem x) = true) l)) as Hj.
  { intros labels. unfold or_else.
    destruct (truthy labels) eqn:Et.
    - destruct labels; simpl in *; try discriminate;
        try (split; [discriminate|intros [?|(l & ? & _)]; congruence]).
      unfold Array_join. split.
      + intros H. right. exists elems. split; [reflexivity|].
        apply mapM_is_Ok. destruct (mapM join_elem elems); [reflexivity|discriminate].
      + intros [?|(l & [= <-] & H)]; [discriminate|].
        apply mapM_is_Ok in H. destruct (mapM join_elem elems); [reflexivity|discriminate].
    - split; [auto|reflexivity]. }
  unfold added_doc.
  destruct (get d "id") as [id|] eqn:Ei.
  - assert (∀ k, ∃ x, get d k = Ok x) as Hg.
    { intros k. destruct d; try discriminate; simpl; eauto. }
    destruct (Hg "title") as (t & ->). destruct (Hg "excerpt") as (x & ->).
    destruct (Hg "labels") as (labels & ->). simpl.
    split.
    + intros H. exists labels. split; [reflexivity|]. apply Hj.
      destruct (join (or_else labels (VArr [])) " "); [reflexivity|discriminate].
    + intros (labels' & [= <-] & H). apply Hj in H.
      destruct (join (or_else labels (VArr [])) " "); [reflexivity|discriminate].
  - simpl. split; [discriminate|]. intros (labels & Hl & _).
    destruct d; simpl in *; discriminate.
Qed.

(** *** What the index depends on *)

Lemma added_doc_arguments d :
  added_doc d
  = (id ← get d "id";
     title ← text_arg d "title";
     excerpt ← text_arg d "excerpt";
     joined ← labels_arg d;
     Ok (VObj [ ("id", id); ("title", title); ("excerpt", excerpt);
                ("labels", VStr joined) ])).
Proof.
  unfold added_doc, text_arg, labels_arg.
  destruct d; simpl; try reflexivity.
  all: destruct (join _ " "); reflexivity.
Qed.

Lemma index_json_added JSON_stringify docs1 docs2 :
  Forall2 (λ d1 d2, added_doc d1 = added_doc d2) docs1 docs2 →
  index_json JSON_stringify (VArr docs1) = index_json JSON_stringify (VArr docs2).
Proof.
  intros H.
  assert (∀ b, foldM (λ this d, doc ← added_doc d; Builder_add this doc) docs1 b
               = foldM (λ this d, doc ← added_doc d; Builder_add this doc) docs2 b) as E.
  { apply foldM_Forall2. eapply Forall2_impl; [exact H|].
    intros d1 d2 Hd s. simpl. rewrite Hd. reflexivity. }
  unfold index_json, build_index, lunr, config. simpl.
  rewrite E. reflexivity.
Qed.

(** X5.  The index depends on a document only through the four
    expressions of the object literal: [d.id], [d.title || ""],
    [d.excerpt || ""] and [(d.labels || []).join(" ")].  So a title or
    excerpt that is [null], [false], [0] or empty counts as a missing
    one, empty labels count as missing labels, and label lists with the
    same joined text - one label [good first issue] or the three labels
    [good], [first], [issue] - give the same serialised index. *)
Theorem index_depends_on_arguments JSON_stringify (docs1 docs2 : list value) :
  Forall2 same_arguments docs1 docs2 →
  index_json JSON_stringify (VArr docs1) = index_json JSON_stringify (VArr docs2).
Proof.
  intros H. apply index_json_added. eapply Forall2_impl; [exact H|].
  intros d1 d2 (Hi & Ht & He & Hl).
  rewrite !added_doc_arguments, Hi, Ht, He, Hl. reflexivity.
Qed.

Lemma index_depends_on_arguments_witness :
  index_json sample_stringify (VArr [issue_42; null_fields_doc])
  = index_json sample_stringify (VArr [issue_42_full; split_labels_doc]).
Proof.
  apply (index_depends_on_arguments sample_stringify
           [issue_42; null_fields_doc] [issue_42_full; split_labels_doc]).
  repeat constructor.
Defined.

(** *** An input that is a string *)

Lemma mapM_map {A B} (f : A → result B) (g : A → B) l :
  Forall (λ x, f x = Ok (g x)) l → mapM f l = Ok (map g l).
Proof.
  induction 1 as [|x l Hx _ IH]; simpl; [reflexivity|].
  rewrite Hx. simpl. rewrite IH. reflexivity.
Qed.

Lemma dedup_constant {A} (x : string) (l : list A) :
  dedup (map (λ _, x) l) = match l with [] => [] | _ :: _ => [x] end.
Proof.
  induction l as [|a l IH] using rev_ind; [reflexivity|].
  rewrite map_app. cbn [map]. rewrite dedup_snoc, IH.
  destruct l as [|b l]; cbn [app].
  - rewrite decide_False by (intros H; inversion H). reflexivity.
  - rewrite decide_True by left. reflexivity.
Qed.

(** X6.  A JSON string is iterable, so an input file that holds a
    string instead of an array is not rejected: the loop visits its
    characters, none of which has an [id], a title, an excerpt or
    labels.  The build completes, and unless the string is empty the
    index has the single reference [undefined]. *)
Theorem string_input_indexed (s : string) :
  ∃ idx, build_index (VStr s) = Ok idx
         ∧ references idx = if String.eqb s "" then [] else ["undefined"%string].
Proof.
  set (chars := map (λ x, VStr (String x "")) (list_ascii_of_string s)).
  assert (build_index (VStr s) = build_index (VArr chars)) as -> by reflexivity.
  assert (Forall (λ d, ∃ x, d = VStr (String x "")) chars) as Hchars.
  { apply Forall_forall. intros d Hd. apply list_elem_of_fmap in Hd as (x & -> & _).
    eauto. }
  assert (∃ idx, build_index (VArr chars) = Ok idx) as (idx & Hidx).
  { unfold build_index, lunr.
    destruct config_loop as (b0 & Hc & _ & _ & _ & _ & _ & Hloop).
    rewrite Hloop. simpl.
    destruct (foldM_total (λ this d, doc ← added_doc d; Builder_add this doc)
                configured (λ d, ∃ x, d = VStr (String x ""))) with (l := chars) (s := b0)
      as (b & -> & _); [|assumption..|simpl; eauto].
    intros b d Hb (x & ->).
    change (added_doc (VStr (String x "")))
      with (Ok (VObj [("id", VUndefined); ("title", VStr "");
                      ("excerpt", VStr ""); ("labels", VStr "")])).
    simpl. eapply Builder_add_flat; [exact Hb|reflexivity]. }
  exists idx. split; [exact Hidx|].
  destruct (build_index_references _ _ Hidx) as (refs & Hrefs & ->).
  rewrite (mapM_map doc_ref (λ _, "undefined"%string)) in Hrefs.
  2: { eapply Forall_impl; [exact Hchars|]. intros d (x & ->). reflexivity. }
  injection Hrefs as <-. rewrite dedup_constant. unfold chars.
  destruct s; reflexivity.
Qed.

(** *** The exceptions of the build *)














(** *** Counting *)

Lemma length_dedup l : (length (dedup l) ≤ length l)%nat.
Proof.
  induction l as [|x l IH] using rev_ind; [reflexivity|].
  rewrite dedup_snoc, length_app. simpl.
  destruct (decide (x ∈ dedup l)); [lia|]. rewrite length_app. simpl. lia.
Qed.

(** X8.  The builder counts every document the loop hands to it, so
    after the loop its document count is the length of the list - the
    number the script prints - while the index built from it has at most
    that many references (fewer when ids repeat). *)
Theorem documents_counted (docs : list value) (b : Builder) :
  config (VArr docs) default_Builder = Ok b →
  documentCount b = length_of (VArr docs)
  ∧ (length (references (build b)) ≤ documentCount b)%nat.
Proof.
  intros H.
  destruct config_loop as (b0 & Hc & _ & Hf & _ & Hn & _ & Hloop).
  rewrite Hloop in H. simpl in H.
  apply loop_fieldRefs in H as (_ & refs & Hrefs & Hkeys & Hcount); [|assumption..].
  split; [exact Hcount|].
  unfold references. cbn [fieldVectors build].
  rewrite okeys_createFieldVectors, Hkeys, docRef_of_fieldRefs, dedup_thrice,
    dedup_dedup, Hcount, <- (mapM_length _ _ _ Hrefs).
  apply length_dedup.
Qed.

Lemma documents_counted_witness :
  documentCount (builder_of (VArr same_id_docs)) = length_of (VArr same_id_docs)
  ∧ (length (references (build (builder_of (VArr same_id_docs))))
     ≤ documentCount (builder_of (VArr same_id_docs)))%nat.
Proof.
  apply (documents_counted same_id_docs (builder_of (VArr same_id_docs))).
  apply config_builder_of. vm_compute. reflexivity.
Defined.
